(** * ProSoft: shape records, the figure factory and the [Feature] decoder

    A shallow embedding of [main.cpp].  The program reads one binary record
    (a kind tag followed by the kind's parameters) through the [IReader]
    interface, obtains the matching [Figure] object from a [Factory] (caching
    it per kind) and later draws it through the [IDrawer] interface.

    Modelling choices, all taken from the source:
    - [Figure::Type] travels on the wire as a 4-byte integer and is therefore
      a [Z]; [eCircle], [eTriangle] and [eSquare] are its named values.
    - a [double] is only ever copied by the program, never computed with; it is
      represented by its 64-bit image.
    - [std::unordered_map] is a [gmap]; [std::vector] is a [list].
    - objects created with [new] live in a heap (a list indexed by address);
      [Figure*] and [std::shared_ptr<Figure>] are addresses, [nullptr] is
      [None].  Dereferencing an address that is not allocated, or indexing a
      vector out of range, is a fault: the operation returns [None].
    - the calls made on an [IDrawer] are collected in a log. *)

From Stdlib Require Import ZArith List Lia.
From stdpp Require Import base option list gmap strings.

Open Scope nat_scope.

(** ** Raw memory images *)

Definition byte_val (b : Byte.byte) : Z := Z.of_N (Byte.to_N b).

(** The integer stored in a little-endian sequence of bytes (what [memcpy] or
    [fread] into an integer object amounts to on the x86-64 target). *)
Fixpoint le_decode (bs : list Byte.byte) : Z :=
  match bs with
  | [] => 0
  | b :: rest => (byte_val b + 256 * le_decode rest)%Z
  end.

(** [double]: the 64-bit image of an IEEE-754 binary64 value. *)
Definition double : Type := Z.

Definition sizeof_double : nat := 8.

(** The content of a [std::vector<double>] of [count] elements
    (value-initialised, hence all zero) after [bs] was stored at [data()]. *)
Definition doubles_of_bytes (count : nat) (bs : list Byte.byte) : list double :=
  map (fun i => le_decode (take sizeof_double (drop (sizeof_double * i) bs)))
      (seq 0 count).

(** ** namespace Drawer *)

Module Drawer.

(** One call on the [IDrawer] interface. *)
Inductive Call : Type :=
  | drawCircle (centerX centerY radius : double)
  | drawPoligon (points : list double).

(** [IDrawer]: a drawing surface reacts to each call. *)
Class IDrawer (D : Type) : Type := {
  on_drawCircle : D -> double -> double -> double -> D;
  on_drawPoligon : D -> list double -> D
}.

Definition perform `{IDrawer D} (d : D) (c : Call) : D :=
  match c with
  | drawCircle x y r => on_drawCircle d x y r
  | drawPoligon pts => on_drawPoligon d pts
  end.

(** Replaying a log of calls on a surface. *)
Definition replay `{IDrawer D} (d : D) (log : list Call) : D :=
  foldl perform d log.

(** [class Drawer]: both methods have empty bodies. *)
Inductive Drawer : Type := mkDrawer.

#[export] Instance Drawer_IDrawer : IDrawer Drawer := {
  on_drawCircle d _ _ _ := d;
  on_drawPoligon d _ := d
}.

End Drawer.

(** ** namespace Figure *)

Module Figure.

Import Drawer.

(** [enum Type].  An object of this type is filled from four bytes of the
    source, so it can hold any unsigned 32-bit value, not only the three
    enumerators. *)
Definition Type_ : Type := Z.
Definition eCircle : Type_ := 0%Z.
Definition eTriangle : Type_ := 1%Z.
Definition eSquare : Type_ := 2%Z.

Definition sizeof_Type : nat := 4.

Definition Type_of_bytes (bs : list Byte.byte) : Type_ :=
  le_decode (take sizeof_Type bs).

(** [class Figure]: the two private fields set by the constructor and the
    virtual [draw] slot.  [draw] returns the calls it makes on the drawer,
    or [None] when it faults. *)
Record Figure : Type := mkFigure {
  _type : Type_;
  _countParams : nat;
  draw : list double -> option (list Call)
}.

Definition type (f : Figure) : Type_ := _type f.
Definition countParams (f : Figure) : nat := _countParams f.

(** A class usable as the template argument [FigureImpl]: it has a static
    [TYPE] and a default constructor. *)
Record FigureImpl : Type := mkFigureImpl {
  TYPE : Type_;
  construct : Figure
}.

Module Circle.
Definition COUNT_PARAMS : nat := 3.
Definition TYPE : Type_ := eCircle.
Definition draw (params : list double) : option (list Call) :=
  if decide (COUNT_PARAMS <= length params) then
    x ← params !! 0; y ← params !! 1; r ← params !! 2;
    Some [drawCircle x y r]
  else Some [].
Definition new : Figure := mkFigure TYPE COUNT_PARAMS draw.
Definition class : FigureImpl := mkFigureImpl TYPE new.
End Circle.

Module Triangle.
Definition COUNT_PARAMS : nat := 6.
Definition TYPE : Type_ := eTriangle.
Definition draw (params : list double) : option (list Call) :=
  if decide (COUNT_PARAMS <= length params) then
    Some [drawPoligon params]
  else Some [].
Definition new : Figure := mkFigure TYPE COUNT_PARAMS draw.
Definition class : FigureImpl := mkFigureImpl TYPE new.
End Triangle.

Module Square.
Definition COUNT_PARAMS : nat := 8.
Definition TYPE : Type_ := eSquare.
Definition draw (params : list double) : option (list Call) :=
  if decide (COUNT_PARAMS <= length params) then
    Some [drawPoligon params]
  else Some [].
Definition new : Figure := mkFigure TYPE COUNT_PARAMS draw.
Definition class : FigureImpl := mkFigureImpl TYPE new.
End Square.

(** The free store holding the [Figure] objects; an address is an index. *)
Abbreviation addr := nat.
Abbreviation heap := (list Figure).

(** [new FigureImpl()]. *)
Definition alloc (h : heap) (o : Figure) : addr * heap :=
  (length h, h ++ [o]).

(** [class Factory]: [figureFactory] maps a kind to its creator.  The creator
    registered for [FigureImpl] is the captureless lambda
    [[]() -> Figure* { return new FigureImpl(); }]; it is represented by
    [FigureImpl] itself and run by [call_creator]. *)
Abbreviation Factory := (gmap Type_ FigureImpl).

Definition call_creator (creator : FigureImpl) (h : heap) : addr * heap :=
  alloc h (construct creator).

(** [template <typename FigureImpl> void registerFigure(bool &res)]. *)
Definition registerFigure1 (Impl : FigureImpl) (s : Factory * bool)
  : Factory * bool :=
  let '(figureFactory, res) := s in
  match figureFactory !! TYPE Impl with
  | Some _ => (figureFactory, false)
  | None => (<[TYPE Impl := Impl]> figureFactory, res)
  end.

(** [template <typename... Args> bool registerFigure()]: the pack is
    expanded inside a braced initialiser, hence from left to right. *)
Definition registerFigure (Args : list FigureImpl) (figureFactory : Factory)
  : Factory * bool :=
  foldl (fun s Impl => registerFigure1 Impl s) (figureFactory, true) Args.

(** [Figure* createFigure(Type type) const]. *)
Definition createFigure (figureFactory : Factory) (type : Type_) (h : heap)
  : option addr * heap :=
  match figureFactory !! type with
  | None => (None, h)
  | Some creator =>
      let '(p, h') := call_creator creator h in (Some p, h')
  end.

End Figure.

(** ** namespace Reader *)

Module Reader.

(** [IReader::read(dst, size, count)].  [dst] tells whether the destination
    pointer is non-null.  The result is [Some bs] when the call returns
    [true], [bs] being the bytes it stored at [dst], and [None] when it
    returns [false] (the caller then discards the destination); the second
    component is the reader afterwards. *)
Class IReader (R : Type) : Type := {
  read : R -> bool -> nat -> nat -> option (list Byte.byte) * R
}.

(** [::fread(dst, size, count, stream)] on a stream with the unread bytes
    [stream]: the number of complete elements read, the bytes stored and the
    bytes left unread. *)
Definition fread (size count : nat) (stream : list Byte.byte)
  : nat * list Byte.byte * list Byte.byte :=
  if (size =? 0) || (count =? 0) then (0, [], stream)
  else
    let n := min (size * count) (length stream) in
    (n / size, take n stream, drop n stream).

(** [class File]: [file] is null when [fopen] failed, otherwise it holds the
    bytes of the file that are still unread. *)
Record File : Type := mkFile {
  file : option (list Byte.byte)
}.

Definition File_read (self : File) (dst : bool) (size count : nat)
  : option (list Byte.byte) * File :=
  match negb dst, file self with
  | false, Some stream =>
      let '(k, data, rest) := fread size count stream in
      (if k =? count then Some data else None, mkFile (Some rest))
  | _, _ => (None, self)
  end.

#[export] Instance File_IReader : IReader File := {
  read := File_read
}.

End Reader.

(** ** class Feature *)

Module Feature.

Import Drawer Figure Reader.

Record Feature : Type := mkFeature {
  figures : gmap Type_ addr;
  currentFigure : option addr;
  currentParams : list double
}.

(** The constructor: an empty cache, [currentFigure = nullptr], no
    parameters.  The factory the object refers to is passed to [read]. *)
Definition new : Feature := mkFeature ∅ None [].

(** Whether [std::vector<double>(count).data()] is non-null: a vector without
    elements owns no storage. *)
Definition vector_data (count : nat) : bool := negb (count =? 0).

(** [bool read(const Reader::IReader &reader)].  The result is the returned
    flag with the object, the heap and the reader afterwards; [None] is a
    fault (a cached pointer that is not allocated). *)
Definition read `{IReader R} (figureFactory : Factory) (reader : R)
    (self : Feature) (h : heap) : option (bool * Feature * heap * R) :=
  match Reader.read reader true sizeof_Type 1 with
  | (None, reader) => Some (false, self, h, reader)
  | (Some tag, reader) =>
      let type := Type_of_bytes tag in
      let it :=
        match figures self !! type with
        | Some p => Some (p, self, h)
        | None =>
            match createFigure figureFactory type h with
            | (None, _) => None
            | (Some figure, h1) =>
                Some (figure,
                      mkFeature (<[type := figure]> (figures self))
                                (currentFigure self) (currentParams self),
                      h1)
            end
        end in
      match it with
      | None => Some (false, self, h, reader)
      | Some (figure, self, h) =>
          match h !! figure with
          | None => None
          | Some obj =>
              let count := countParams obj in
              match Reader.read reader (vector_data count) sizeof_double count with
              | (None, reader) => Some (false, self, h, reader)
              | (Some raw, reader) =>
                  let params := doubles_of_bytes count raw in
                  Some (true,
                        mkFeature (figures self) (Some figure) params,
                        h, reader)
              end
          end
      end
  end.

(** [void draw(const Drawer::IDrawer &drawer)]: the calls made on the drawer
    and the object afterwards. *)
Definition draw (self : Feature) (h : heap) : option (list Call * Feature) :=
  match currentFigure self with
  | None => Some ([], self)
  | Some p =>
      obj ← h !! p;
      calls ← Figure.draw obj (currentParams self);
      Some (calls, self)
  end.

(** [bool isValid()]. *)
Definition isValid (self : Feature) : bool :=
  match currentFigure self with
  | Some _ => true
  | None => false
  end.

End Feature.

(** ** The program *)

Import Drawer Figure Reader.

(** The factory built at the start of [main]. *)
Definition main_factory : Factory :=
  (registerFigure [Circle.class; Triangle.class; Square.class] ∅).1.

(** [int main()] over a given reader: the exit status and the calls made on
    the drawer. *)
Definition main `{IReader R} (reader : R) : option (Z * list Call) :=
  let figureFactory := main_factory in
  let feature := Feature.new in
  '(_, feature, h, _) ← Feature.read figureFactory reader feature [];
  '(log, feature) ← Feature.draw feature h;
  Some (if negb (Feature.isValid feature) then 1%Z else 0%Z, log).

(** ** Auxiliary notions used by the statements *)

(** The outcome of each single registration of a batch, every one started
    with its own flag set: [true] when the class was added. *)
Fixpoint individual_results (Args : list FigureImpl) (figureFactory : Factory)
  : list bool :=
  match Args with
  | [] => []
  | Impl :: rest =>
      let '(figureFactory', ok) := registerFigure1 Impl (figureFactory, true) in
      ok :: individual_results rest figureFactory'
  end.

(** The invariant of a [Feature] used with the factory [figureFactory] and
    the heap [h]: every cached kind is registered (a factory only grows) and
    its pointer refers to an allocated object, and so does the current
    pointer. *)
Definition wf (figureFactory : Factory) (h : heap) (self : Feature.Feature)
  : Prop :=
  map_Forall (fun type p => p < length h /\ is_Some (figureFactory !! type))
             (Feature.figures self) /\
  forall p, Feature.currentFigure self = Some p -> p < length h.

(** The two ways [Feature::read] obtains the figure of kind [type]: found in
    the cache, or created by the factory and added to the cache. *)
Inductive resolved (figureFactory : Factory) (self : Feature.Feature)
    (h : heap) (type : Type_) : addr -> Feature.Feature -> heap -> Prop :=
  | resolved_cached p :
      Feature.figures self !! type = Some p ->
      resolved figureFactory self h type p self h
  | resolved_created Impl :
      Feature.figures self !! type = None ->
      figureFactory !! type = Some Impl ->
      resolved figureFactory self h type (length h)
        (Feature.mkFeature (<[type := length h]> (Feature.figures self))
           (Feature.currentFigure self) (Feature.currentParams self))
        (h ++ [construct Impl]).

(** The four ways through [Feature::read]: the returned flag, and the object,
    the heap and the reader at the end. *)
Inductive read_outcome `{IReader R} (figureFactory : Factory) (reader : R)
    (self : Feature.Feature) (h : heap)
  : bool -> Feature.Feature -> heap -> R -> Prop :=
  | tag_short reader1 :
      read reader true sizeof_Type 1 = (None, reader1) ->
      read_outcome figureFactory reader self h false self h reader1
  | unknown_kind tag reader1 :
      read reader true sizeof_Type 1 = (Some tag, reader1) ->
      Feature.figures self !! Type_of_bytes tag = None ->
      figureFactory !! Type_of_bytes tag = None ->
      read_outcome figureFactory reader self h false self h reader1
  | params_short tag reader1 p self1 h1 obj reader2 :
      read reader true sizeof_Type 1 = (Some tag, reader1) ->
      resolved figureFactory self h (Type_of_bytes tag) p self1 h1 ->
      h1 !! p = Some obj ->
      read reader1 (Feature.vector_data (countParams obj)) sizeof_double
           (countParams obj) = (None, reader2) ->
      read_outcome figureFactory reader self h false self1 h1 reader2
  | decoded tag reader1 p self1 h1 obj raw reader2 :
      read reader true sizeof_Type 1 = (Some tag, reader1) ->
      resolved figureFactory self h (Type_of_bytes tag) p self1 h1 ->
      h1 !! p = Some obj ->
      read reader1 (Feature.vector_data (countParams obj)) sizeof_double
           (countParams obj) = (Some raw, reader2) ->
      read_outcome figureFactory reader self h true
        (Feature.mkFeature (Feature.figures self1) (Some p)
           (doubles_of_bytes (countParams obj) raw))
        h1 reader2.

(** No [draw] of an object of the heap, or of a class of the factory, faults. *)
Definition draw_safe (obj : Figure) : Prop :=
  forall params, is_Some (Figure.draw obj params).

Definition draws_safe (figureFactory : Factory) (h : heap) : Prop :=
  Forall draw_safe h /\
  map_Forall (fun _ Impl => draw_safe (construct Impl)) figureFactory.

(** What a client does with a [Feature]: decode from some reader, or render. *)
Inductive op (R : Type) : Type :=
  | Decode (reader : R)
  | Render.
Arguments Decode {R} reader.
Arguments Render {R}.

(** Running a sequence of operations: the object and the heap at the end, and
    all calls made on the drawer. *)
Fixpoint run `{IReader R} (figureFactory : Factory) (ops : list (op R))
    (self : Feature.Feature) (h : heap)
  : option (Feature.Feature * heap * list Call) :=
  match ops with
  | [] => Some (self, h, [])
  | Decode reader :: ops =>
      '(_, self, h, _) ← Feature.read figureFactory reader self h;
      run figureFactory ops self h
  | Render :: ops =>
      '(calls, self) ← Feature.draw self h;
      '(self, h, log) ← run figureFactory ops self h;
      Some (self, h, calls ++ log)
  end.

(** Sample data: the images of 1.0, 2.0 and 3.0; a circle record, the same
    record cut after its second parameter, and a record of kind 99. *)
Definition d1 : double := 0x3FF0000000000000%Z.
Definition d2 : double := 0x4000000000000000%Z.
Definition d3 : double := 0x4008000000000000%Z.

Definition circle_record : list Byte.byte :=
  let z := Byte.x00 in
  [z; z; z; z;
   z; z; z; z; z; z; Byte.xf0; Byte.x3f;
   z; z; z; z; z; z; z; Byte.x40;
   z; z; z; z; z; z; Byte.x08; Byte.x40].

Definition truncated_record : list Byte.byte := take 20 circle_record.

Definition unknown_record : list Byte.byte :=
  [Byte.x63; Byte.x00; Byte.x00; Byte.x00] ++ drop 4 circle_record.

(** The decoder after it decoded [circle_record] with the program's factory
    on an empty heap. *)
Definition held_circle : Feature.Feature :=
  Feature.mkFeature {[eCircle := 0]} (Some 0) [d1; d2; d3].

(** A class announcing the circle kind whose constructor builds a square. *)
Definition impostor : FigureImpl := mkFigureImpl eCircle Square.new.

(** ** namespace Testing *)

(** The object representation of an integer of [width] bytes, least
    significant byte first: what [memcpy] from such an object copies. *)
Fixpoint le_encode (width : nat) (v : Z) : list Byte.byte :=
  match width with
  | 0 => []
  | S w =>
      default Byte.x00 (Byte.of_N (Z.to_N (v mod 256)))
      :: le_encode w (v / 256)
  end.

Module Testing.

Import Drawer Figure Reader.

(** One insertion into [std::cout]: a string literal, a [double], or
    [std::endl]. *)
Inductive Out : Type :=
  | out_text (s : string)
  | out_double (d : double)
  | out_endl.

(** The image of 2.1. *)
Definition value_2_1 : double := 0x4000CCCCCCCCCCCD%Z.

(** The state the mock reader acts on: what was written to [std::cout], or
    [Crashed] once a call stored through a null pointer. *)
Inductive Console : Type :=
  | Running (cout : list Out)
  | Crashed.

(** The [while (count--)] loop of [ReaderMock::read]: the bytes stored at
    [dst] and what is printed. *)
Fixpoint params_loop (count : nat) : list Byte.byte * list Out :=
  match count with
  | 0 => ([], [])
  | S count =>
      let '(stored, printed) := params_loop count in
      (le_encode sizeof_double value_2_1 ++ stored,
       [out_double value_2_1; out_text " "] ++ printed)
  end.

(** [ReaderMock::read(dst, size, count)]: [size] is ignored; the call always
    returns [true]. *)
Definition ReaderMock_read (self : Console) (dst : bool) (size count : nat)
  : option (list Byte.byte) * Console :=
  match self with
  | Crashed => (None, Crashed)
  | Running cout =>
      if count =? 1 then
        if dst then
          (Some (le_encode sizeof_Type eCircle),
           Running (cout ++ [out_text "ReaderMock::read(): type: eCircle";
                             out_endl]))
        else (None, Crashed)
      else
        let '(stored, printed) := params_loop count in
        if dst || (count =? 0) then
          (Some stored,
           Running (cout ++ [out_text "ReaderMock::read(): params: { "]
                         ++ printed ++ [out_text "} "; out_endl]))
        else (None, Crashed)
  end.

#[export] Instance ReaderMock_IReader : IReader Console := {
  read := ReaderMock_read
}.

End Testing.

(** ** Further notions used by the statements *)

(** The [double]s that were inserted into the console output, and the number
    of line ends in it. *)
Definition printed_doubles (cout : list Testing.Out) : list double :=
  flat_map (fun o => match o with Testing.out_double d => [d] | _ => [] end)
           cout.

Definition printed_lines (cout : list Testing.Out) : nat :=
  length (flat_map (fun o => match o with Testing.out_endl => [o] | _ => [] end)
                   cout).

(** The parameter count [Feature::read] will use for the kind [type]: that of
    the cached figure, and on a cache miss that of the figure the factory
    would construct. *)
Definition count_for (figureFactory : Factory) (self : Feature.Feature)
    (h : heap) (type : Type_) : option nat :=
  match Feature.figures self !! type with
  | Some p => countParams <$> h !! p
  | None => (fun Impl => countParams (construct Impl)) <$> figureFactory !! type
  end.

(** The classes of the program, and the call each makes for a full
    parameter list. *)
Definition builtin_classes : list FigureImpl :=
  [Circle.class; Triangle.class; Square.class].

Definition builtin_call (type : Type_) (params : list double) : Call :=
  if decide (type = eCircle) then
    drawCircle (default 0%Z (params !! 0)) (default 0%Z (params !! 1))
               (default 0%Z (params !! 2))
  else drawPoligon params.

(** A class whose constructor passes its own [TYPE] to [Figure]. *)
Definition class_ok (Impl : FigureImpl) : Prop :=
  type (construct Impl) = TYPE Impl.


(** Ownership: the cached pointers are exactly the addresses of the heap, and
    no two kinds share an object. *)
Definition owns (h : heap) (self : Feature.Feature) : Prop :=
  (forall p,
     p < length h <-> exists type, Feature.figures self !! type = Some p) /\
  (forall type1 type2 p,
     Feature.figures self !! type1 = Some p ->
     Feature.figures self !! type2 = Some p -> type1 = type2).

(** * Properties *)

(** ** The figures *)

Section Figures.

Implicit Types (params : list double) (Impl : FigureImpl).

Lemma Circle_draw_enough params :
  Circle.COUNT_PARAMS <= length params ->
  exists x y r rest,
    params = x :: y :: r :: rest /\
    Circle.draw params = Some [drawCircle x y r].
Proof.
  unfold Circle.COUNT_PARAMS. intros Hlen.
  destruct params as [|x [|y [|r rest]]]; simpl in Hlen; try lia.
  exists x, y, r, rest. split; [reflexivity|].
  unfold Circle.draw. case_decide as Hd; [reflexivity|].
  exfalso. apply Hd. unfold Circle.COUNT_PARAMS. simpl. lia.
Qed.

Lemma polygon_draw_enough (n : nat) params :
  n <= length params ->
  (if decide (n <= length params) then Some [drawPoligon params] else Some [])
  = Some [drawPoligon params].
Proof. intros Hlen. case_decide; [reflexivity | contradiction]. Qed.

Lemma main_factory_unfold :
  main_factory =
  <[eSquare := Square.class]>
    (<[eTriangle := Triangle.class]> (<[eCircle := Circle.class]> ∅)).
Proof. reflexivity. Qed.

Lemma main_factory_lookup (type : Type_) Impl :
  main_factory !! type = Some Impl <->
  (type = eCircle /\ Impl = Circle.class) \/
  (type = eTriangle /\ Impl = Triangle.class) \/
  (type = eSquare /\ Impl = Square.class).
Proof.
  rewrite main_factory_unfold. split.
  - intros Hl.
    apply lookup_insert_Some in Hl as [[<- <-]|[_ Hl]]; [tauto|].
    apply lookup_insert_Some in Hl as [[<- <-]|[_ Hl]]; [tauto|].
    apply lookup_insert_Some in Hl as [[<- <-]|[_ Hl]]; [tauto|].
    rewrite lookup_empty in Hl. discriminate.
  - intros [[-> ->]|[[-> ->]|[-> ->]]]; reflexivity.
Qed.

Lemma createFigure_registered (figureFactory : Factory) (type : Type_) Impl
    (h : heap) :
  figureFactory !! type = Some Impl ->
  createFigure figureFactory type h = (Some (length h), h ++ [construct Impl]).
Proof. intros Hl. unfold createFigure. rewrite Hl. reflexivity. Qed.

Lemma createFigure_unregistered (figureFactory : Factory) (type : Type_)
    (h : heap) :
  figureFactory !! type = None ->
  createFigure figureFactory type h = (None, h).
Proof. intros Hl. unfold createFigure. rewrite Hl. reflexivity. Qed.

Lemma lookup_fresh (h : heap) (obj : Figure) :
  (h ++ [obj]) !! length h = Some obj.
Proof. rewrite lookup_app_r by lia. rewrite Nat.sub_diag. reflexivity. Qed.

(** C4.  A figure created by the program's factory, drawn with a parameter
    list of exactly its own [countParams], makes exactly one call on the
    drawer: the circle kind calls [drawCircle] with the three parameters in
    order, the triangle and square kinds call [drawPoligon] with the whole
    list; the values are passed on as they are. *)
Theorem draw_exact_count (type : Type_) (h h' : heap) (p : addr)
    (obj : Figure) params :
  createFigure main_factory type h = (Some p, h') ->
  h' !! p = Some obj ->
  length params = countParams obj ->
  (type = eCircle /\
   exists x y r, params = [x; y; r] /\
                 Figure.draw obj params = Some [drawCircle x y r]) \/
  ((type = eTriangle \/ type = eSquare) /\
   Figure.draw obj params = Some [drawPoligon params]).
Proof.
  intros Hcreate Hobj Hlen.
  destruct (main_factory !! type) as [Impl|] eqn:Hl.
  2:{ rewrite (createFigure_unregistered _ _ _ Hl) in Hcreate. discriminate. }
  rewrite (createFigure_registered _ _ _ _ Hl) in Hcreate.
  injection Hcreate as <- <-.
  rewrite lookup_fresh in Hobj. injection Hobj as <-.
  apply main_factory_lookup in Hl as [[-> ->]|[[-> ->]|[-> ->]]].
  - left. split; [reflexivity|].
    destruct (Circle_draw_enough params) as (x & y & r & rest & -> & Hd).
    { rewrite Hlen. reflexivity. }
    assert (rest = []) as ->.
    { destruct rest; [reflexivity | simpl in Hlen; discriminate]. }
    exists x, y, r. split; [reflexivity | exact Hd].
  - right. split; [left; reflexivity|].
    apply polygon_draw_enough. rewrite Hlen. reflexivity.
  - right. split; [right; reflexivity|].
    apply polygon_draw_enough. rewrite Hlen. reflexivity.
Qed.

Lemma draw_exact_count_witness :
  (eCircle = eCircle /\
   exists x y r, [d1; d2; d3] = [x; y; r] /\
                 Figure.draw Circle.new [d1; d2; d3] = Some [drawCircle x y r]) \/
  ((eCircle = eTriangle \/ eCircle = eSquare) /\
   Figure.draw Circle.new [d1; d2; d3] = Some [drawPoligon [d1; d2; d3]]).
Proof.
  apply (draw_exact_count eCircle [] [Circle.new] 0); reflexivity.
Defined.

(** C6.  Each of [Circle], [Triangle] and [Square], drawn with fewer
    parameters than its [COUNT_PARAMS], returns normally without any call on
    the drawer. *)
Theorem draw_too_few Impl params :
  Impl ∈ [Circle.class; Triangle.class; Square.class] ->
  length params < countParams (construct Impl) ->
  Figure.draw (construct Impl) params = Some [].
Proof.
  intros Hin Hlen.
  repeat (apply elem_of_cons in Hin as [->|Hin]);
    [| | | apply elem_of_nil in Hin; contradiction];
    simpl in *;
    [unfold Circle.draw | unfold Triangle.draw | unfold Square.draw];
    (case_decide; [lia | reflexivity]).
Qed.

Lemma draw_too_few_witness :
  Figure.draw (construct Square.class) [d1; d2; d3] = Some [].
Proof.
  apply (draw_too_few Square.class [d1; d2; d3]).
  - apply elem_of_cons. right. apply elem_of_cons. right.
    apply elem_of_cons. left. reflexivity.
  - simpl. unfold Square.COUNT_PARAMS. lia.
Defined.

Lemma builtin_draw_safe :
  draw_safe Circle.new /\ draw_safe Triangle.new /\ draw_safe Square.new.
Proof.
  split; [|split]; intros params; simpl.
  - unfold Circle.draw. case_decide as Hlen; [|eauto].
    destruct (Circle_draw_enough params Hlen) as (x & y & r & rest & -> & _).
    simpl. eauto.
  - unfold Triangle.draw. case_decide; eauto.
  - unfold Square.draw. case_decide; eauto.
Qed.

Lemma Drawer_replay (d : Drawer.Drawer) (log : list Call) :
  replay d log = d.
Proof.
  induction log as [|c log IH]; [reflexivity|].
  destruct c; exact IH.
Qed.

Lemma main_factory_safe (h : heap) :
  Forall draw_safe h -> draws_safe main_factory h.
Proof.
  intros Hh. split; [exact Hh|].
  intros type Impl Hl.
  destruct builtin_draw_safe as (Hc & Ht & Hs).
  apply main_factory_lookup in Hl as [[_ ->]|[[_ ->]|[_ ->]]]; assumption.
Qed.

End Figures.

(** ** The factory *)

Section Registry.

Implicit Types (figureFactory : Factory) (Impl : FigureImpl).
Implicit Types (Args : list FigureImpl) (h : heap).

Lemma registerFigure1_fresh figureFactory Impl (res : bool) :
  figureFactory !! TYPE Impl = None ->
  registerFigure1 Impl (figureFactory, res)
  = (<[TYPE Impl := Impl]> figureFactory, res).
Proof. intros Hl. unfold registerFigure1. rewrite Hl. reflexivity. Qed.

Lemma registerFigure1_present figureFactory Impl (res : bool) :
  is_Some (figureFactory !! TYPE Impl) ->
  registerFigure1 Impl (figureFactory, res) = (figureFactory, false).
Proof. intros [c Hl]. unfold registerFigure1. rewrite Hl. reflexivity. Qed.

(** The flag only ever filters the batch result; the map built does not
    depend on it. *)
Lemma registerFigure_fold Args figureFactory (res : bool) :
  foldl (fun s Impl => registerFigure1 Impl s) (figureFactory, res) Args
  = ((registerFigure Args figureFactory).1,
     res && forallb id (individual_results Args figureFactory)).
Proof.
  unfold registerFigure.
  revert figureFactory res.
  induction Args as [|Impl rest IH]; intros figureFactory res; simpl.
  - rewrite andb_true_r. reflexivity.
  - destruct (figureFactory !! TYPE Impl) as [c|] eqn:Hl; simpl.
    + rewrite (IH figureFactory false), (IH figureFactory true).
      rewrite andb_false_r. reflexivity.
    + rewrite (IH _ res), (IH _ true). reflexivity.
Qed.

Lemma registerFigure_result Args figureFactory :
  (registerFigure Args figureFactory).2
  = forallb id (individual_results Args figureFactory).
Proof.
  unfold registerFigure at 1. rewrite registerFigure_fold. reflexivity.
Qed.

Lemma individual_results_all Args figureFactory :
  forallb id (individual_results Args figureFactory) = true <->
  NoDup (TYPE <$> Args) /\
  forall Impl, Impl ∈ Args -> figureFactory !! TYPE Impl = None.
Proof.
  revert figureFactory.
  induction Args as [|Impl rest IH]; intros figureFactory; simpl.
  - split; [|reflexivity]. intros _. split; [constructor|].
    intros J HJ. apply elem_of_nil in HJ. contradiction.
  - destruct (figureFactory !! TYPE Impl) as [c|] eqn:Hl; simpl.
    + split; [discriminate|]. intros [_ Hfree].
      rewrite Hfree in Hl by (apply elem_of_cons; left; reflexivity).
      discriminate.
    + rewrite IH. rewrite NoDup_cons. split.
      * intros [Hnd Hfree]. split; [split; [|exact Hnd]|].
        -- intros Hin. apply list_elem_of_fmap in Hin as (J & HJ & HinJ).
           specialize (Hfree J HinJ). rewrite <- HJ in Hfree.
           rewrite lookup_insert_eq in Hfree. discriminate.
        -- intros J HJ. apply elem_of_cons in HJ as [->|HJ]; [exact Hl|].
           specialize (Hfree J HJ).
           apply lookup_insert_None in Hfree as [Hfree _]. exact Hfree.
      * intros [[Hnotin Hnd] Hfree]. split; [exact Hnd|].
        intros J HJ. apply lookup_insert_None. split.
        -- apply Hfree. apply elem_of_cons. right. exact HJ.
        -- intros Heq. apply Hnotin. apply list_elem_of_fmap.
           exists J. split; [exact Heq | exact HJ].
Qed.

(** C3.  When a kind is already registered, registering a class of that kind
    again reports failure, leaves the map as it was, and [createFigure] for
    the kind still builds the object of the class registered first. *)
Theorem register_duplicate figureFactory (First Second : FigureImpl)
    (res : bool) h :
  figureFactory !! TYPE Second = Some First ->
  registerFigure1 Second (figureFactory, res) = (figureFactory, false) /\
  registerFigure [Second] figureFactory = (figureFactory, false) /\
  createFigure (registerFigure [Second] figureFactory).1 (TYPE Second) h
  = (Some (length h), h ++ [construct First]).
Proof.
  intros Hl.
  assert (forall b, registerFigure1 Second (figureFactory, b)
                    = (figureFactory, false)) as Hreg.
  { intros b. apply registerFigure1_present. rewrite Hl. eauto. }
  split; [apply Hreg|].
  assert (registerFigure [Second] figureFactory = (figureFactory, false))
    as Hbatch by (unfold registerFigure; simpl; apply Hreg).
  split; [exact Hbatch|].
  rewrite Hbatch. simpl. apply createFigure_registered. exact Hl.
Qed.

Lemma register_duplicate_witness :
  let figureFactory := (registerFigure [Circle.class] ∅).1 in
  registerFigure1 impostor (figureFactory, true) = (figureFactory, false) /\
  registerFigure [impostor] figureFactory = (figureFactory, false) /\
  createFigure (registerFigure [impostor] figureFactory).1 eCircle []
  = (Some 0, [Circle.new]).
Proof.
  exact (register_duplicate (registerFigure [Circle.class] ∅).1
           Circle.class impostor true [] eq_refl).
Defined.

(** C9.  The batch [registerFigure] returns [true] exactly when every single
    registration of the batch added its class; equivalently, when the kinds
    of the batch are pairwise different and none was registered before. *)
Theorem registerFigure_batch Args figureFactory :
  ((registerFigure Args figureFactory).2 = true <->
   Forall (fun ok => ok = true) (individual_results Args figureFactory)) /\
  ((registerFigure Args figureFactory).2 = true <->
   NoDup (TYPE <$> Args) /\
   forall Impl, Impl ∈ Args -> figureFactory !! TYPE Impl = None).
Proof.
  rewrite registerFigure_result. split.
  - rewrite forallb_forall, Forall_forall.
    split; intros Hall ok Hok; apply Hall; apply list_elem_of_In; exact Hok.
  - apply individual_results_all.
Qed.

End Registry.

(** ** The decoder *)

Section Decoder.

Context `{IReader R}.

Implicit Types (figureFactory : Factory) (self : Feature.Feature).
Implicit Types (h : heap) (reader : R) (ops : list (op R)).

Lemma wf_new figureFactory h : wf figureFactory h Feature.new.
Proof.
  split; [apply map_Forall_empty | intros p Hp; discriminate Hp].
Qed.

Lemma wf_lookup figureFactory h self type p :
  wf figureFactory h self ->
  Feature.figures self !! type = Some p ->
  p < length h /\ is_Some (figureFactory !! type).
Proof. intros [Hc _] Hl. exact (Hc _ _ Hl). Qed.

(** What resolving a kind leaves behind. *)
Lemma resolved_spec figureFactory self h type p self1 h1 :
  wf figureFactory h self ->
  resolved figureFactory self h type p self1 h1 ->
  wf figureFactory h1 self1 /\
  p < length h1 /\
  Feature.figures self1 !! type = Some p /\
  Feature.currentFigure self1 = Feature.currentFigure self /\
  Feature.currentParams self1 = Feature.currentParams self /\
  h `prefix_of` h1 /\
  Feature.figures self ⊆ Feature.figures self1 /\
  length h1 + size (Feature.figures self)
  = length h + size (Feature.figures self1).
Proof.
  intros Hwf Hres. destruct Hres as [p Hhit | Impl Hmiss Hreg].
  { destruct (wf_lookup _ _ _ _ _ Hwf Hhit) as [Hlt _].
    split; [exact Hwf|]. split; [exact Hlt|]. split; [exact Hhit|].
    split; [reflexivity|]. split; [reflexivity|]. split; [reflexivity|].
    split; reflexivity. }
  simpl. rewrite length_app. simpl.
  rewrite map_size_insert_None by exact Hmiss.
  split; [split|].
  - apply map_Forall_insert_2.
    + rewrite length_app. simpl. split; [lia | rewrite Hreg; eauto].
    + eapply map_Forall_impl; [apply Hwf|].
      intros t q [Hq Ht]. rewrite length_app. simpl. split; [lia | exact Ht].
  - simpl. intros q Hq. rewrite length_app. simpl.
    destruct Hwf as [_ Hcur]. specialize (Hcur q Hq). lia.
  - split; [lia|]. split; [apply lookup_insert_eq|].
    split; [reflexivity|]. split; [reflexivity|].
    split; [apply prefix_app_r; reflexivity|].
    split; [apply insert_subseteq; exact Hmiss | lia].
Qed.

(** [Feature::read] never faults on a well-formed object, and its result is
    one of the four outcomes. *)
Lemma read_outcome_total figureFactory reader self h :
  wf figureFactory h self ->
  exists ok self' h' reader',
    Feature.read figureFactory reader self h = Some (ok, self', h', reader') /\
    read_outcome figureFactory reader self h ok self' h' reader'.
Proof.
  intros Hwf. unfold Feature.read.
  destruct (read reader true sizeof_Type 1) as [[tag|] reader1] eqn:Htag.
  2:{ eexists _, _, _, _. split; [reflexivity|]. by apply tag_short. }
  assert (forall p self1 h1,
    resolved figureFactory self h (Type_of_bytes tag) p self1 h1 ->
    exists ok self' h' reader',
      match h1 !! p with
      | Some obj =>
          match read reader1 (Feature.vector_data (countParams obj))
                  sizeof_double (countParams obj) with
          | (Some raw, reader2) =>
              Some (true,
                    Feature.mkFeature (Feature.figures self1) (Some p)
                      (doubles_of_bytes (countParams obj) raw),
                    h1, reader2)
          | (None, reader2) => Some (false, self1, h1, reader2)
          end
      | None => None
      end = Some (ok, self', h', reader') /\
      read_outcome figureFactory reader self h ok self' h' reader') as Htail.
  { intros p self1 h1 Hres.
    destruct (resolved_spec _ _ _ _ _ _ _ Hwf Hres) as (_ & Hlt & _).
    destruct (h1 !! p) as [obj|] eqn:Hobj.
    2:{ apply lookup_ge_None in Hobj. lia. }
    destruct (read reader1 _ _ _) as [[raw|] reader2] eqn:Hpar.
    - eexists _, _, _, _. split; [reflexivity|].
      by eapply decoded.
    - eexists _, _, _, _. split; [reflexivity|].
      by eapply params_short. }
  destruct (Feature.figures self !! Type_of_bytes tag) as [p|] eqn:Hc.
  - apply Htail. by apply resolved_cached.
  - unfold createFigure.
    destruct (figureFactory !! Type_of_bytes tag) as [Impl|] eqn:Hreg.
    + simpl. apply (Htail _ _ _ (resolved_created _ _ _ _ Impl Hc Hreg)).
    + eexists _, _, _, _. split; [reflexivity|]. by eapply unknown_kind.
Qed.

Lemma isValid_currentFigure self :
  Feature.isValid self = true <-> is_Some (Feature.currentFigure self).
Proof.
  unfold Feature.isValid. destruct (Feature.currentFigure self).
  - split; eauto.
  - split; [discriminate | intros [p Hp]; discriminate Hp].
Qed.

(** What every outcome of [Feature::read] guarantees. *)
Lemma read_outcome_spec figureFactory reader self h ok self' h' reader' :
  wf figureFactory h self ->
  read_outcome figureFactory reader self h ok self' h' reader' ->
  wf figureFactory h' self' /\
  h `prefix_of` h' /\
  Feature.figures self ⊆ Feature.figures self' /\
  length h' + size (Feature.figures self)
  = length h + size (Feature.figures self') /\
  (ok = false ->
   Feature.currentFigure self' = Feature.currentFigure self /\
   Feature.currentParams self' = Feature.currentParams self) /\
  (ok = true -> is_Some (Feature.currentFigure self')).
Proof.
  intros Hwf Hout.
  destruct Hout as [r1 Htag | tag r1 Htag Hc Hreg
                   | tag r1 p self1 h1 obj r2 Htag Hres Hobj Hpar
                   | tag r1 p self1 h1 obj raw r2 Htag Hres Hobj Hpar].
  - split; [exact Hwf|]. split; [reflexivity|]. split; [reflexivity|].
    split; [reflexivity|]. split; [split; reflexivity | discriminate].
  - split; [exact Hwf|]. split; [reflexivity|]. split; [reflexivity|].
    split; [reflexivity|]. split; [split; reflexivity | discriminate].
  - destruct (resolved_spec _ _ _ _ _ _ _ Hwf Hres)
      as (Hwf1 & Hlt & Hcache & Hfig & Hpars & Hpre & Hsub & Hcount).
    split; [exact Hwf1|]. split; [exact Hpre|]. split; [exact Hsub|].
    split; [exact Hcount|]. split; [split; assumption | discriminate].
  - destruct (resolved_spec _ _ _ _ _ _ _ Hwf Hres)
      as (Hwf1 & Hlt & Hcache & Hfig & Hpars & Hpre & Hsub & Hcount).
    split.
    { split; [apply Hwf1 | simpl; intros q [= <-]; exact Hlt]. }
    split; [exact Hpre|]. split; [exact Hsub|]. split; [exact Hcount|].
    split; [discriminate | simpl; eauto].
Qed.

Lemma draw_inv self h calls self' :
  Feature.draw self h = Some (calls, self') -> self' = self.
Proof.
  unfold Feature.draw. intros Hd.
  destruct (Feature.currentFigure self) as [p|]; [|congruence].
  destruct (h !! p) as [obj|]; simpl in Hd; [|discriminate].
  destruct (Figure.draw obj _); simpl in Hd; congruence.
Qed.

(** Whatever a client does, the object stays well formed, objects of the
    heap are never changed, the cache only grows and one object is
    constructed per kind that enters the cache. *)
Lemma run_inv figureFactory ops self h self' h' log :
  wf figureFactory h self ->
  run figureFactory ops self h = Some (self', h', log) ->
  wf figureFactory h' self' /\
  h `prefix_of` h' /\
  Feature.figures self ⊆ Feature.figures self' /\
  length h' + size (Feature.figures self)
  = length h + size (Feature.figures self') /\
  (Feature.isValid self = true -> Feature.isValid self' = true).
Proof.
  revert self h self' h' log.
  induction ops as [|[reader|] ops IH]; intros self h self' h' log Hwf Hrun;
    simpl in Hrun.
  - injection Hrun as <- <- <-.
    split; [exact Hwf|]. split; [reflexivity|]. split; [reflexivity|].
    split; [reflexivity | trivial].
  - destruct (read_outcome_total figureFactory reader self h Hwf)
      as (ok & self1 & h1 & r1 & Hread & Hout).
    rewrite Hread in Hrun. simpl in Hrun.
    destruct (read_outcome_spec _ _ _ _ _ _ _ _ Hwf Hout)
      as (Hwf1 & Hpre1 & Hsub1 & Hcount1 & Hfail & Hsucc).
    destruct (IH _ _ _ _ _ Hwf1 Hrun) as (Hwf2 & Hpre2 & Hsub2 & Hcount2 & Hv).
    split; [exact Hwf2|]. split; [etrans; eassumption|].
    split; [etrans; eassumption|]. split; [lia|].
    intros Hvalid. apply Hv. apply isValid_currentFigure.
    destruct ok.
    + apply Hsucc. reflexivity.
    + destruct (Hfail eq_refl) as [-> _]. apply isValid_currentFigure, Hvalid.
  - destruct (Feature.draw self h) as [[calls self1]|] eqn:Hdraw;
      simpl in Hrun; [|discriminate].
    apply draw_inv in Hdraw as ->.
    destruct (run figureFactory ops self h) as [[[self2 h2] log2]|] eqn:Hrest;
      simpl in Hrun; [|discriminate].
    injection Hrun as <- <- <-.
    exact (IH _ _ _ _ _ Hwf Hrest).
Qed.

Lemma draws_safe_outcome figureFactory reader self h ok self' h' reader' :
  draws_safe figureFactory h ->
  read_outcome figureFactory reader self h ok self' h' reader' ->
  draws_safe figureFactory h'.
Proof.
  intros [Hh Hf] Hout.
  assert (forall type p self1 h1,
    resolved figureFactory self h type p self1 h1 ->
    draws_safe figureFactory h1) as Hres.
  { intros type p self1 h1 [q Hq | Impl Hc Hreg]; [by split|].
    split; [|exact Hf]. apply Forall_app. split; [exact Hh|].
    apply Forall_singleton. exact (Hf _ _ Hreg). }
  destruct Hout; eauto using Hres; by split.
Qed.

Lemma draw_total figureFactory self h :
  wf figureFactory h self ->
  draws_safe figureFactory h ->
  exists calls, Feature.draw self h = Some (calls, self).
Proof.
  intros [_ Hcur] [Hh _]. unfold Feature.draw.
  destruct (Feature.currentFigure self) as [p|] eqn:Hp; [|by exists []].
  destruct (lookup_lt_is_Some_2 _ _ (Hcur p eq_refl)) as [obj Hobj].
  rewrite Forall_lookup in Hh.
  destruct (Hh _ _ Hobj (Feature.currentParams self)) as [calls Hcalls].
  exists calls. rewrite Hobj. simpl. rewrite Hcalls. reflexivity.
Qed.

Lemma run_total figureFactory ops self h :
  wf figureFactory h self ->
  draws_safe figureFactory h ->
  is_Some (run figureFactory ops self h).
Proof.
  revert self h.
  induction ops as [|[reader|] ops IH]; intros self h Hwf Hsafe; simpl.
  - eauto.
  - destruct (read_outcome_total figureFactory reader self h Hwf)
      as (ok & self1 & h1 & r1 & Hread & Hout).
    rewrite Hread. simpl.
    apply IH.
    + by destruct (read_outcome_spec _ _ _ _ _ _ _ _ Hwf Hout) as [? _].
    + by eapply draws_safe_outcome.
  - destruct (draw_total _ _ _ Hwf Hsafe) as [calls Hdraw].
    rewrite Hdraw. simpl.
    destruct (IH _ _ Hwf Hsafe) as [[[self2 h2] log2] Hrest].
    rewrite Hrest. simpl. eauto.
Qed.

End Decoder.

Section DecoderClaims.

Context `{IReader R}.

Implicit Types (figureFactory : Factory) (self : Feature.Feature).
Implicit Types (h : heap) (reader : R) (ops : list (op R)).

(** C2.  [Feature::read] never faults on a well-formed object.  When it
    returns [false], whatever step failed, [currentFigure] and
    [currentParams] are as before the call and the object [currentFigure]
    points to is untouched.  When it returns [true], the kind tag and then
    all [countParams] parameters of the figure were read successfully, and
    these are what the object now holds. *)
Theorem read_atomic figureFactory reader self h :
  wf figureFactory h self ->
  exists ok self' h' reader',
    Feature.read figureFactory reader self h = Some (ok, self', h', reader') /\
    (ok = false ->
     Feature.currentFigure self' = Feature.currentFigure self /\
     Feature.currentParams self' = Feature.currentParams self /\
     forall p, Feature.currentFigure self = Some p -> h' !! p = h !! p) /\
    (ok = true ->
     exists tag reader1 p obj raw,
       read reader true sizeof_Type 1 = (Some tag, reader1) /\
       h' !! p = Some obj /\
       read reader1 (Feature.vector_data (countParams obj)) sizeof_double
            (countParams obj) = (Some raw, reader') /\
       Feature.currentFigure self' = Some p /\
       Feature.currentParams self' = doubles_of_bytes (countParams obj) raw).
Proof.
  intros Hwf.
  destruct (read_outcome_total figureFactory reader self h Hwf)
    as (ok & self' & h' & reader' & Hread & Hout).
  exists ok, self', h', reader'. split; [exact Hread|].
  destruct (read_outcome_spec _ _ _ _ _ _ _ _ Hwf Hout)
    as (_ & Hpre & _ & _ & Hfail & _).
  split.
  - intros Hok. destruct (Hfail Hok) as [Hfig Hpar].
    split; [exact Hfig|]. split; [exact Hpar|].
    intros p Hp. destruct Hwf as [_ Hcur].
    destruct (lookup_lt_is_Some_2 _ _ (Hcur p Hp)) as [obj Hobj].
    rewrite Hobj. exact (prefix_lookup_Some _ _ _ _ Hobj Hpre).
  - intros Hok. destruct Hout; try discriminate Hok.
    eexists _, _, _, _, _. repeat (split; [eassumption|]).
    split; reflexivity.
Qed.

(** C1 (amended).  On a decoder that holds no record, for instance a newly
    constructed one, every failing [Feature::read] leaves the decoder empty
    with [isValid()] false; and the read does fail when the kind-tag read
    fails, when the kind is not registered, and when the parameter read
    fails. *)
Theorem failed_read_stays_empty figureFactory reader self h :
  wf figureFactory h self ->
  Feature.currentFigure self = None ->
  exists ok self' h' reader',
    Feature.read figureFactory reader self h = Some (ok, self', h', reader') /\
    (ok = false ->
     Feature.currentFigure self' = None /\
     Feature.isValid self' = false /\
     Feature.currentParams self' = Feature.currentParams self) /\
    (forall reader1,
       read reader true sizeof_Type 1 = (None, reader1) -> ok = false) /\
    (forall tag reader1,
       read reader true sizeof_Type 1 = (Some tag, reader1) ->
       figureFactory !! Type_of_bytes tag = None -> ok = false) /\
    (forall tag reader1 p obj reader2,
       read reader true sizeof_Type 1 = (Some tag, reader1) ->
       Feature.figures self' !! Type_of_bytes tag = Some p ->
       h' !! p = Some obj ->
       read reader1 (Feature.vector_data (countParams obj)) sizeof_double
            (countParams obj) = (None, reader2) ->
       ok = false).
Proof.
  intros Hwf Hempty.
  destruct (read_outcome_total figureFactory reader self h Hwf)
    as (ok & self' & h' & reader' & Hread & Hout).
  exists ok, self', h', reader'. split; [exact Hread|].
  destruct (read_outcome_spec _ _ _ _ _ _ _ _ Hwf Hout)
    as (_ & _ & _ & _ & Hfail & _).
  split.
  { intros Hok. destruct (Hfail Hok) as [Hfig Hpar].
    rewrite Hempty in Hfig. split; [exact Hfig|]. split; [|exact Hpar].
    unfold Feature.isValid. rewrite Hfig. reflexivity. }
  destruct Hout as [r1 Htag | tag r1 Htag Hc Hreg
                   | tag r1 p self1 h1 obj r2 Htag Hres Hobj Hpar
                   | tag r1 p self1 h1 obj raw r2 Htag Hres Hobj Hpar];
    try (split; [reflexivity | split; reflexivity]).
  split; [|split].
  - intros r1' Htag'. rewrite Htag in Htag'. discriminate Htag'.
  - intros tag' r1' Htag' Hunreg. rewrite Htag in Htag'.
    injection Htag' as <- <-.
    destruct (resolved_spec _ _ _ _ _ _ _ Hwf Hres) as (Hwf1 & _ & Hcache & _).
    destruct (wf_lookup _ _ _ _ _ Hwf1 Hcache) as [_ [Impl HImpl]].
    rewrite Hunreg in HImpl. discriminate HImpl.
  - intros tag' r1' p' obj' r2' Htag' Hcache' Hobj' Hpar'.
    rewrite Htag in Htag'. injection Htag' as <- <-.
    destruct (resolved_spec _ _ _ _ _ _ _ Hwf Hres) as (_ & _ & Hcache & _).
    simpl in Hcache'. rewrite Hcache in Hcache'. injection Hcache' as <-.
    rewrite Hobj in Hobj'. injection Hobj' as <-.
    rewrite Hpar in Hpar'. discriminate Hpar'.
Qed.

(** C8.  [Feature::draw] makes no call when no record is held.  When a record
    is held it makes exactly the calls of the held figure's [draw] on the
    held parameters.  It leaves the object as it is, so that a second [draw]
    makes the same calls again. *)
Theorem render_spec figureFactory self h :
  (Feature.currentFigure self = None -> Feature.draw self h = Some ([], self)) /\
  (forall p obj,
     Feature.currentFigure self = Some p -> h !! p = Some obj ->
     Feature.draw self h
     = (calls ← Figure.draw obj (Feature.currentParams self);
        Some (calls, self))) /\
  (forall calls self',
     Feature.draw self h = Some (calls, self') ->
     self' = self /\
     Feature.draw self' h = Some (calls, self') /\
     run (R := R) figureFactory [Render; Render] self h
     = Some (self, h, calls ++ calls)).
Proof.
  split; [|split].
  - intros Hnone. unfold Feature.draw. rewrite Hnone. reflexivity.
  - intros p obj Hp Hobj. unfold Feature.draw. rewrite Hp, Hobj. reflexivity.
  - intros calls self' Hdraw.
    pose proof (draw_inv _ _ _ _ Hdraw) as ->.
    split; [reflexivity|]. split; [exact Hdraw|].
    simpl. rewrite Hdraw. simpl. rewrite Hdraw. simpl.
    rewrite app_nil_r. reflexivity.
Qed.

(** C10.  From a decoder that holds a record, any sequence of decodes
    (succeeding or failing) and renders runs to completion and ends with a
    decoder that still holds a record: [isValid()] stays true. *)
Theorem valid_forever figureFactory ops self h :
  wf figureFactory h self ->
  draws_safe figureFactory h ->
  Feature.isValid self = true ->
  exists self' h' log,
    run figureFactory ops self h = Some (self', h', log) /\
    Feature.isValid self' = true.
Proof.
  intros Hwf Hsafe Hvalid.
  destruct (run_total figureFactory ops self h Hwf Hsafe)
    as [[[self' h'] log] Hrun].
  exists self', h', log. split; [exact Hrun|].
  destruct (run_inv _ _ _ _ _ _ _ Hwf Hrun) as (_ & _ & _ & _ & Hv).
  exact (Hv Hvalid).
Qed.

Lemma read_outcome_cache figureFactory reader self h ok self' h' reader'
    tag reader1 :
  read reader true sizeof_Type 1 = (Some tag, reader1) ->
  read_outcome figureFactory reader self h ok self' h' reader' ->
  match Feature.figures self !! Type_of_bytes tag with
  | Some p =>
      h' = h /\ Feature.figures self' = Feature.figures self /\
      (ok = true -> Feature.currentFigure self' = Some p)
  | None =>
      match figureFactory !! Type_of_bytes tag with
      | Some Impl =>
          h' = h ++ [construct Impl] /\
          Feature.figures self'
          = <[Type_of_bytes tag := length h]> (Feature.figures self) /\
          (ok = true -> Feature.currentFigure self' = Some (length h))
      | None =>
          h' = h /\ Feature.figures self' = Feature.figures self /\ ok = false
      end
  end.
Proof.
  intros Htag Hout.
  assert (forall p self1 h1 (b : bool) (q : option addr),
    resolved figureFactory self h (Type_of_bytes tag) p self1 h1 ->
    (b = true -> q = Some p) ->
    match Feature.figures self !! Type_of_bytes tag with
    | Some p0 =>
        h1 = h /\ Feature.figures self1 = Feature.figures self /\
        (b = true -> q = Some p0)
    | None =>
        match figureFactory !! Type_of_bytes tag with
        | Some Impl =>
            h1 = h ++ [construct Impl] /\
            Feature.figures self1
            = <[Type_of_bytes tag := length h]> (Feature.figures self) /\
            (b = true -> q = Some (length h))
        | None =>
            h1 = h /\ Feature.figures self1 = Feature.figures self /\ b = false
        end
    end) as Hres.
  { intros p self1 h1 b q [p0 Hhit | Impl Hmiss Hreg] Hq.
    - rewrite Hhit. auto.
    - rewrite Hmiss, Hreg. auto. }
  destruct Hout as [r1 Htag' | tag' r1 Htag' Hc Hreg
                   | tag' r1 p self1 h1 obj r2 Htag' Hres' Hobj Hpar
                   | tag' r1 p self1 h1 obj raw r2 Htag' Hres' Hobj Hpar];
    rewrite Htag in Htag'.
  - discriminate Htag'.
  - injection Htag' as <- <-. rewrite Hc, Hreg. auto.
  - injection Htag' as <- <-.
    apply (Hres p self1 h1 false (Feature.currentFigure self1) Hres').
    discriminate.
  - injection Htag' as <- <-.
    apply (Hres p self1 h1 true (Some p) Hres'). reflexivity.
Qed.

(** C5.  After any history of decodes and renders: the number of figures
    constructed equals the number of kinds that entered the cache, and cached
    entries never change.  A further decode of a cached kind constructs
    nothing and, when it succeeds, holds the cached instance; a decode of a
    kind not yet cached constructs exactly one object and caches it (or fails
    when the kind is not registered).  [createFigure] itself allocates a new
    object at every call. *)
Theorem decoder_caches_variants figureFactory ops self h self1 h1 log :
  wf figureFactory h self ->
  run figureFactory ops self h = Some (self1, h1, log) ->
  length h1 + size (Feature.figures self)
  = length h + size (Feature.figures self1) /\
  (forall type p,
     Feature.figures self !! type = Some p ->
     Feature.figures self1 !! type = Some p) /\
  (forall reader tag reader1,
     read reader true sizeof_Type 1 = (Some tag, reader1) ->
     exists ok self2 h2 reader2,
       Feature.read figureFactory reader self1 h1
       = Some (ok, self2, h2, reader2) /\
       match Feature.figures self1 !! Type_of_bytes tag with
       | Some p =>
           h2 = h1 /\ Feature.figures self2 = Feature.figures self1 /\
           (ok = true -> Feature.currentFigure self2 = Some p)
       | None =>
           match figureFactory !! Type_of_bytes tag with
           | Some Impl =>
               h2 = h1 ++ [construct Impl] /\
               Feature.figures self2
               = <[Type_of_bytes tag := length h1]> (Feature.figures self1) /\
               (ok = true -> Feature.currentFigure self2 = Some (length h1))
           | None =>
               h2 = h1 /\ Feature.figures self2 = Feature.figures self1 /\
               ok = false
           end
       end) /\
  (forall type Impl (h0 : heap),
     figureFactory !! type = Some Impl ->
     createFigure figureFactory type h0
     = (Some (length h0), h0 ++ [construct Impl]) /\
     createFigure figureFactory type (h0 ++ [construct Impl])
     = (Some (S (length h0)), h0 ++ [construct Impl; construct Impl])).
Proof.
  intros Hwf Hrun.
  destruct (run_inv _ _ _ _ _ _ _ Hwf Hrun) as (Hwf1 & _ & Hsub & Hcount & _).
  split; [exact Hcount|]. split; [|split].
  - intros type p Hp. exact (lookup_weaken _ _ _ _ Hp Hsub).
  - intros reader tag reader1 Htag.
    destruct (read_outcome_total figureFactory reader self1 h1 Hwf1)
      as (ok & self2 & h2 & reader2 & Hread & Hout).
    exists ok, self2, h2, reader2. split; [exact Hread|].
    exact (read_outcome_cache _ _ _ _ _ _ _ _ _ _ Htag Hout).
  - intros type Impl h0 Hreg.
    rewrite !(createFigure_registered _ _ _ _ Hreg).
    rewrite length_app, <- app_assoc. simpl.
    rewrite Nat.add_1_r. split; reflexivity.
Qed.

End DecoderClaims.

(** ** The file reader *)

Section FileReader.

Implicit Types (stream data rest : list Byte.byte) (size count : nat).

Lemma Type_of_bytes_take stream :
  Type_of_bytes (take sizeof_Type stream) = Type_of_bytes stream.
Proof. unfold Type_of_bytes. rewrite take_take, Nat.min_id. reflexivity. Qed.

Lemma length_doubles_of_bytes count data :
  length (doubles_of_bytes count data) = count.
Proof. unfold doubles_of_bytes. rewrite length_map, length_seq. reflexivity. Qed.

End FileReader.

(** ** Scenarios with the file reader *)

Example main_circle_record :
  main (mkFile (Some circle_record)) = Some (0%Z, [drawCircle d1 d2 d3]).
Proof. reflexivity. Qed.

Example main_unknown_record :
  main (mkFile (Some unknown_record)) = Some (1%Z, []).
Proof. reflexivity. Qed.

Example main_truncated_record :
  main (mkFile (Some truncated_record)) = Some (1%Z, []).
Proof. reflexivity. Qed.

Example main_no_file : main (mkFile None) = Some (1%Z, []).
Proof. reflexivity. Qed.

Lemma held_circle_wf : wf main_factory [Circle.new] held_circle.
Proof. split; [compute_done | intros p [= <-]; simpl; lia]. Qed.

Lemma held_circle_safe : draws_safe main_factory [Circle.new].
Proof.
  apply main_factory_safe. apply Forall_singleton. apply builtin_draw_safe.
Qed.

(** C1, as stated, fails.  A decoder that decoded a circle record and then
    fails to decode (on an exhausted file, on a record of an unregistered
    kind, on a record cut short) still holds the circle: it is not empty and
    [isValid()] is true. *)
Lemma failed_read_keeps_record :
  Feature.read main_factory (mkFile (Some circle_record)) Feature.new []
  = Some (true, held_circle, [Circle.new], mkFile (Some [])) /\
  Feature.read main_factory (mkFile (Some [])) held_circle [Circle.new]
  = Some (false, held_circle, [Circle.new], mkFile (Some [])) /\
  Feature.read main_factory (mkFile (Some unknown_record)) held_circle
    [Circle.new]
  = Some (false, held_circle, [Circle.new],
          mkFile (Some (drop 4 unknown_record))) /\
  Feature.read main_factory (mkFile (Some truncated_record)) held_circle
    [Circle.new]
  = Some (false, held_circle, [Circle.new], mkFile (Some [])) /\
  Feature.isValid held_circle = true /\
  Feature.currentFigure held_circle = Some 0.
Proof. repeat split; reflexivity. Qed.

Lemma failed_read_stays_empty_witness :
  wf main_factory [] Feature.new /\
  Feature.currentFigure Feature.new = None /\
  exists ok self' h' reader',
    Feature.read main_factory (mkFile (Some truncated_record)) Feature.new []
    = Some (ok, self', h', reader') /\
    (ok = false ->
     Feature.currentFigure self' = None /\
     Feature.isValid self' = false /\
     Feature.currentParams self' = []).
Proof.
  split; [apply wf_new|]. split; [reflexivity|].
  destruct (failed_read_stays_empty main_factory
              (mkFile (Some truncated_record)) Feature.new []
              (wf_new _ _) eq_refl)
    as (ok & self' & h' & reader' & Hread & Hfail & _).
  exists ok, self', h', reader'. split; [exact Hread | exact Hfail].
Defined.

Lemma read_atomic_witness :
  wf main_factory [Circle.new] held_circle /\
  exists ok self' h' reader',
    Feature.read main_factory (mkFile (Some truncated_record)) held_circle
      [Circle.new] = Some (ok, self', h', reader') /\
    (ok = false ->
     Feature.currentFigure self' = Some 0 /\
     Feature.currentParams self' = [d1; d2; d3] /\
     forall p, Feature.currentFigure held_circle = Some p ->
               h' !! p = [Circle.new] !! p).
Proof.
  split; [exact held_circle_wf|].
  destruct (read_atomic main_factory (mkFile (Some truncated_record))
              held_circle [Circle.new] held_circle_wf)
    as (ok & self' & h' & reader' & Hread & Hfail & _).
  exists ok, self', h', reader'. split; [exact Hread | exact Hfail].
Defined.

Lemma render_spec_witness :
  Feature.draw held_circle [Circle.new]
  = Some ([drawCircle d1 d2 d3], held_circle) /\
  run (R := File) main_factory [Render; Render] held_circle [Circle.new]
  = Some (held_circle, [Circle.new],
          [drawCircle d1 d2 d3; drawCircle d1 d2 d3]).
Proof.
  destruct (render_spec (R := File) main_factory held_circle [Circle.new])
    as (_ & _ & Htwice).
  destruct (Htwice [drawCircle d1 d2 d3] held_circle eq_refl)
    as (_ & Hdraw & Hrun).
  split; [exact Hdraw | exact Hrun].
Defined.

Lemma valid_forever_witness :
  wf main_factory [Circle.new] held_circle /\
  draws_safe main_factory [Circle.new] /\
  Feature.isValid held_circle = true /\
  exists self' h' log,
    run main_factory
      [Decode (mkFile (Some [])); Render;
       Decode (mkFile (Some unknown_record));
       Decode (mkFile (Some truncated_record)); Render]
      held_circle [Circle.new]
    = Some (self', h', log) /\
    Feature.isValid self' = true.
Proof.
  split; [exact held_circle_wf|]. split; [exact held_circle_safe|].
  split; [reflexivity|].
  apply (valid_forever main_factory); [exact held_circle_wf
                                      | exact held_circle_safe | reflexivity].
Defined.

Lemma decoder_caches_variants_witness :
  wf main_factory [] Feature.new /\
  run main_factory [Decode (mkFile (Some circle_record)); Render]
    Feature.new []
  = Some (held_circle, [Circle.new], [drawCircle d1 d2 d3]) /\
  exists ok self2 h2 reader2,
    Feature.read main_factory (mkFile (Some circle_record)) held_circle
      [Circle.new]
    = Some (ok, self2, h2, reader2) /\
    h2 = [Circle.new] /\
    Feature.figures self2 = Feature.figures held_circle /\
    (ok = true -> Feature.currentFigure self2 = Some 0).
Proof.
  assert (run main_factory [Decode (mkFile (Some circle_record)); Render]
            Feature.new []
          = Some (held_circle, [Circle.new], [drawCircle d1 d2 d3])) as Hrun
    by reflexivity.
  split; [apply wf_new|]. split; [exact Hrun|].
  destruct (decoder_caches_variants main_factory
              [Decode (mkFile (Some circle_record)); Render]
              Feature.new [] held_circle [Circle.new] [drawCircle d1 d2 d3]
              (wf_new _ _) Hrun)
    as (_ & _ & Hnext & _).
  destruct (Hnext (mkFile (Some circle_record)) (take 4 circle_record)
              (mkFile (Some (drop 4 circle_record))) eq_refl)
    as (ok & self2 & h2 & reader2 & Hread & Hcache).
  exists ok, self2, h2, reader2. split; [exact Hread | exact Hcache].
Defined.

(** * Further properties *)

(** ** [File::read] *)

Section FileRead.

Implicit Types (stream data : list Byte.byte) (size count : nat).
Implicit Types (self : File).

Lemma fread_enough size count stream :
  count = 0 \/ (0 < size /\ size * count <= length stream) ->
  fread size count stream
  = (count, take (size * count) stream, drop (size * count) stream).
Proof.
  intros Hfit. unfold fread.
  destruct (size =? 0) eqn:Hs; simpl.
  { apply Nat.eqb_eq in Hs as ->. destruct Hfit as [->|[Hs _]]; [|lia].
    reflexivity. }
  destruct (count =? 0) eqn:Hc.
  { apply Nat.eqb_eq in Hc as ->. rewrite Nat.mul_0_r. reflexivity. }
  apply Nat.eqb_neq in Hs. apply Nat.eqb_neq in Hc.
  destruct Hfit as [->|[_ Hlen]]; [contradiction|].
  rewrite Nat.min_l by exact Hlen.
  rewrite (Nat.mul_comm size count), Nat.div_mul by exact Hs. reflexivity.
Qed.

Lemma fread_short size count stream :
  0 < count ->
  size = 0 \/ length stream < size * count ->
  exists k data rest, fread size count stream = (k, data, rest) /\ k < count.
Proof.
  intros Hcount Hshort. unfold fread.
  destruct (size =? 0) eqn:Hs; simpl; [eauto 6|].
  apply Nat.eqb_neq in Hs.
  destruct (count =? 0) eqn:Hc; [apply Nat.eqb_eq in Hc; lia|].
  destruct Hshort as [->|Hlen]; [contradiction|].
  eexists _, _, _. split; [reflexivity|].
  rewrite Nat.min_r by lia.
  apply Nat.Div0.div_lt_upper_bound. exact Hlen.
Qed.

Lemma File_read_Some self (dst : bool) size count data self' :
  read self dst size count = (Some data, self') <->
  dst = true /\
  exists stream,
    file self = Some stream /\
    (count = 0 \/ (0 < size /\ size * count <= length stream)) /\
    data = take (size * count) stream /\
    self' = mkFile (Some (drop (size * count) stream)).
Proof.
  simpl. unfold File_read. split.
  - destruct dst; simpl; [|discriminate].
    destruct (file self) as [stream|]; [|discriminate].
    destruct (decide (count = 0 \/ (0 < size /\ size * count <= length stream)))
      as [Hfit|Hshort].
    + rewrite (fread_enough _ _ _ Hfit), Nat.eqb_refl.
      intros [= <- <-]. split; [reflexivity|]. exists stream. auto.
    + destruct (fread_short size count stream) as (k & d & rest & -> & Hk);
        [lia | lia |].
      apply Nat.lt_neq, Nat.eqb_neq in Hk. rewrite Hk. discriminate.
  - intros (-> & stream & -> & Hfit & -> & ->). simpl.
    rewrite (fread_enough _ _ _ Hfit), Nat.eqb_refl. reflexivity.
Qed.

(** X1.  [File::read] returns [true] exactly when the destination is not
    null, the file is open and either no element is asked for or the unread
    part holds [count] whole elements of a non-zero [size].  It then stored
    exactly the next [size * count] bytes and these, followed by what is
    left unread, are what was unread before: nothing is skipped or read
    twice. *)
Theorem File_read_exact self (dst : bool) size count data self' :
  (read self dst size count = (Some data, self') <->
   dst = true /\
   exists stream,
     file self = Some stream /\
     (count = 0 \/ (0 < size /\ size * count <= length stream)) /\
     data = take (size * count) stream /\
     self' = mkFile (Some (drop (size * count) stream))) /\
  (read self dst size count = (Some data, self') ->
   exists stream rest,
     file self = Some stream /\ self' = mkFile (Some rest) /\
     stream = data ++ rest /\ length data = size * count).
Proof.
  split; [apply File_read_Some|].
  intros Hread.
  apply File_read_Some in Hread as (_ & stream & Hfile & Hfit & -> & ->).
  exists stream, (drop (size * count) stream).
  split; [exact Hfile|]. split; [reflexivity|].
  split; [symmetry; apply take_drop|].
  rewrite length_take. destruct Hfit as [->|[_ Hlen]]; lia.
Qed.

Lemma File_read_short stream size count :
  0 < count ->
  size = 0 \/ length stream < size * count ->
  read (mkFile (Some stream)) true size count
  = (None, mkFile (Some (if size =? 0 then stream else []))).
Proof.
  intros Hcount Hshort. simpl. unfold File_read, fread. simpl.
  destruct (size =? 0) eqn:Hs; simpl.
  { destruct count; [lia | reflexivity]. }
  apply Nat.eqb_neq in Hs.
  destruct (count =? 0) eqn:Hc; [apply Nat.eqb_eq in Hc; lia|].
  destruct Hshort as [->|Hlen]; [contradiction|].
  rewrite Nat.min_r by lia.
  assert ((length stream / size =? count) = false) as ->.
  { apply Nat.eqb_neq, Nat.lt_neq, Nat.Div0.div_lt_upper_bound. exact Hlen. }
  rewrite drop_all. reflexivity.
Qed.

(** X2.  A read that asks for more than what is left unread fails and leaves
    the file at its end, so that every later read of at least one element
    fails as well. *)
Theorem File_short_read_drains stream size count :
  0 < size -> 0 < count -> length stream < size * count ->
  read (mkFile (Some stream)) true size count = (None, mkFile (Some [])) /\
  forall (dst : bool) size' count',
    0 < count' ->
    read (mkFile (Some [])) dst size' count' = (None, mkFile (Some [])).
Proof.
  intros Hsize Hcount Hlen. split.
  - rewrite (File_read_short stream size count Hcount (or_intror Hlen)).
    destruct size; [lia | reflexivity].
  - intros dst size' count' Hcount'.
    destruct dst; [|reflexivity].
    rewrite (File_read_short [] size' count' Hcount').
    + destruct (size' =? 0); reflexivity.
    + destruct size'; [left; reflexivity | right; simpl; lia].
Qed.

Lemma File_short_read_drains_witness :
  read (mkFile (Some truncated_record)) true sizeof_double 3
  = (None, mkFile (Some [])) /\
  forall (dst : bool) size' count',
    0 < count' ->
    read (mkFile (Some [])) dst size' count' = (None, mkFile (Some [])).
Proof.
  apply (File_short_read_drains truncated_record sizeof_double 3).
  - unfold sizeof_double. lia.
  - lia.
  - simpl. lia.
Defined.

(** X3.  Reading [c1 + c2] elements in one call succeeds exactly when reading
    [c1] and then [c2] elements succeeds; the bytes stored are the same, in
    order, and the file ends at the same position. *)
Theorem File_read_split stream size c1 c2 data self' :
  0 < size ->
  read (mkFile (Some stream)) true size (c1 + c2) = (Some data, self') <->
  exists d1 d2 mid,
    read (mkFile (Some stream)) true size c1 = (Some d1, mid) /\
    read mid true size c2 = (Some d2, self') /\
    data = d1 ++ d2.
Proof.
  intros Hsize. split.
  - intros Hread.
    apply File_read_Some in Hread as (_ & s & [= <-] & Hfit & -> & ->).
    assert (size * (c1 + c2) <= length stream) as Hlen.
    { destruct Hfit as [Hz|[_ Hlen]]; [rewrite Hz; lia | exact Hlen]. }
    exists (take (size * c1) stream),
           (take (size * c2) (drop (size * c1) stream)),
           (mkFile (Some (drop (size * c1) stream))).
    split; [|split].
    + apply File_read_Some. split; [reflexivity|]. exists stream.
      split; [reflexivity|]. split; [right; lia|]. split; reflexivity.
    + apply File_read_Some. split; [reflexivity|].
      exists (drop (size * c1) stream).
      split; [reflexivity|]. rewrite length_drop.
      split; [right; lia|]. split; [reflexivity|].
      rewrite drop_drop, <- Nat.mul_add_distr_l. reflexivity.
    + rewrite Nat.mul_add_distr_l, take_take_drop. reflexivity.
  - intros (d1 & d2 & mid & Hr1 & Hr2 & ->).
    apply File_read_Some in Hr1 as (_ & s & [= <-] & Hfit1 & -> & ->).
    apply File_read_Some in Hr2 as (_ & s & [= <-] & Hfit2 & -> & ->).
    rewrite length_drop in Hfit2.
    apply File_read_Some. split; [reflexivity|]. exists stream.
    split; [reflexivity|]. split; [right; split; [exact Hsize|]; nia|].
    rewrite drop_drop, <- Nat.mul_add_distr_l.
    split; [|reflexivity].
    rewrite Nat.mul_add_distr_l, take_take_drop. reflexivity.
Qed.

Lemma File_read_split_witness :
  read (mkFile (Some circle_record)) true 4 (1 + 6)
  = (Some circle_record, mkFile (Some [])) <->
  exists d1 d2 mid,
    read (mkFile (Some circle_record)) true 4 1 = (Some d1, mid) /\
    read mid true 4 6 = (Some d2, mkFile (Some [])) /\
    circle_record = d1 ++ d2.
Proof. apply (File_read_split circle_record 4 1 6). lia. Defined.

End FileRead.

(** ** Registration in general *)

Section Registration.

Implicit Types (figureFactory : Factory) (Impl : FigureImpl).
Implicit Types (Args : list FigureImpl) (h : heap) (type : Type_).

Lemma registerFigure_cons Impl Args figureFactory :
  (registerFigure (Impl :: Args) figureFactory).1
  = (registerFigure Args (registerFigure1 Impl (figureFactory, true)).1).1.
Proof.
  unfold registerFigure at 1. cbn [foldl].
  destruct (registerFigure1 Impl (figureFactory, true)) as [f1 res].
  rewrite registerFigure_fold. reflexivity.
Qed.

Lemma registerFigure_lookup Args figureFactory type :
  (registerFigure Args figureFactory).1 !! type
  = match figureFactory !! type with
    | Some creator => Some creator
    | None => head (filter (fun Impl => TYPE Impl = type) Args)
    end.
Proof.
  revert figureFactory.
  induction Args as [|Impl Args IH]; intros figureFactory.
  { simpl. destruct (figureFactory !! type); reflexivity. }
  rewrite registerFigure_cons, IH. simpl.
  destruct (figureFactory !! TYPE Impl) as [c|] eqn:Hl; simpl.
  - rewrite filter_cons. case_decide as Heq; [|reflexivity].
    rewrite <- Heq, Hl. reflexivity.
  - rewrite filter_cons. case_decide as Heq.
    + rewrite <- Heq, lookup_insert_eq, Hl. reflexivity.
    + rewrite lookup_insert_ne by exact Heq. reflexivity.
Qed.

Lemma head_filter_split (P : FigureImpl -> Prop)
    `{forall x, Decision (P x)} Args Impl :
  head (filter P Args) = Some Impl <->
  exists before after,
    Args = before ++ Impl :: after /\ P Impl /\
    Forall (fun J => ~ P J) before.
Proof.
  induction Args as [|J Args IH].
  { split; [discriminate|].
    intros (before & after & Heq & _). destruct before; discriminate Heq. }
  rewrite filter_cons. case_decide as HJ.
  - split.
    + intros [= <-]. exists [], Args. split; [reflexivity|].
      split; [exact HJ | constructor].
    + intros (before & after & Heq & HP & Hnot).
      destruct before as [|K before]; simpl in Heq.
      * injection Heq as -> _. reflexivity.
      * injection Heq as -> _. apply Forall_cons in Hnot as [Hnot _].
        contradiction.
  - rewrite IH. split.
    + intros (before & after & -> & HP & Hnot).
      exists (J :: before), after. split; [reflexivity|].
      split; [exact HP | constructor; assumption].
    + intros (before & after & Heq & HP & Hnot).
      destruct before as [|K before]; simpl in Heq.
      * injection Heq as -> _. contradiction.
      * injection Heq as -> ->. apply Forall_cons in Hnot as [_ Hnot].
        exists before, after. auto.
Qed.

(** X4.  After a batch registration a kind is served by the creator it had
    before, if it had one; otherwise by the first class of the batch that
    announces this kind, whatever classes of the same kind follow in the
    batch. *)
Theorem registerFigure_first_wins Args figureFactory type Impl :
  (registerFigure Args figureFactory).1 !! type = Some Impl <->
  figureFactory !! type = Some Impl \/
  (figureFactory !! type = None /\
   exists before after,
     Args = before ++ Impl :: after /\ TYPE Impl = type /\
     Forall (fun J => TYPE J <> type) before).
Proof.
  rewrite registerFigure_lookup.
  destruct (figureFactory !! type) as [creator|] eqn:Hl.
  - split; [auto|]. intros [Heq|[Hnone _]]; [exact Heq | discriminate Hnone].
  - rewrite (head_filter_split (fun J => TYPE J = type)). split.
    + intros Hsplit. right. split; [reflexivity | exact Hsplit].
    + intros [Hsome|[_ Hsplit]]; [discriminate Hsome | exact Hsplit].
Qed.

(** X5.  A batch registration is not undone when it reports failure: all
    former entries are kept as they were, and every kind announced in the
    batch is registered afterwards, whatever the returned flag. *)
Theorem registerFigure_grows Args figureFactory :
  figureFactory ⊆ (registerFigure Args figureFactory).1 /\
  forall type,
    is_Some ((registerFigure Args figureFactory).1 !! type) <->
    is_Some (figureFactory !! type) \/ type ∈ TYPE <$> Args.
Proof.
  split.
  - apply map_subseteq_spec. intros type c Hl.
    rewrite registerFigure_lookup, Hl. reflexivity.
  - intros type. rewrite registerFigure_lookup.
    destruct (figureFactory !! type) as [c|] eqn:Hl.
    { split; eauto. }
    split.
    + intros [c Hc]. right. apply head_Some_elem_of in Hc.
      apply list_elem_of_filter in Hc as [Heq Hin].
      apply list_elem_of_fmap. exists c. split; [symmetry; exact Heq | exact Hin].
    + intros [[c Hc]|Hin]; [discriminate Hc|].
      apply list_elem_of_fmap in Hin as (Impl & Heq & Hin).
      assert (Impl ∈ filter (fun Impl => TYPE Impl = type) Args) as Hf.
      { apply list_elem_of_filter. split; [symmetry; exact Heq | exact Hin]. }
      destruct (filter _ Args) as [|c l]; [|simpl; eauto].
      apply elem_of_nil in Hf. contradiction.
Qed.

Lemma registerFigure_Forall (P : FigureImpl -> Prop) Args figureFactory :
  Forall P Args ->
  map_Forall (fun _ Impl => P Impl) figureFactory ->
  map_Forall (fun _ Impl => P Impl) (registerFigure Args figureFactory).1.
Proof.
  intros HArgs Hfac type Impl Hl.
  rewrite registerFigure_lookup in Hl.
  destruct (figureFactory !! type) as [c|] eqn:Hc.
  - injection Hl as <-. exact (Hfac _ _ Hc).
  - apply head_Some_elem_of, list_elem_of_filter in Hl as [_ Hin].
    rewrite Forall_forall in HArgs. exact (HArgs _ Hin).
Qed.

(** X6.  With a factory filled by one batch of classes whose constructors
    pass on their own [TYPE], [createFigure] returns a new object of exactly
    the requested kind, built by the first class of the batch of that kind;
    for a kind no class of the batch announces it returns [nullptr] and
    allocates nothing. *)
Theorem createFigure_after_registration Args type h :
  Forall class_ok Args ->
  match head (filter (fun Impl => TYPE Impl = type) Args) with
  | Some Impl =>
      createFigure (registerFigure Args ∅).1 type h
      = (Some (length h), h ++ [construct Impl]) /\
      Figure.type (construct Impl) = type
  | None => createFigure (registerFigure Args ∅).1 type h = (None, h)
  end.
Proof.
  intros Hok.
  pose proof (registerFigure_lookup Args ∅ type) as Hl.
  rewrite lookup_empty in Hl.
  destruct (head (filter (fun Impl => TYPE Impl = type) Args))
    as [Impl|] eqn:Hhead.
  - split; [apply createFigure_registered; exact Hl|].
    apply head_Some_elem_of, list_elem_of_filter in Hhead as [Heq Hin].
    rewrite Forall_forall in Hok. rewrite (Hok _ Hin). exact Heq.
  - apply createFigure_unregistered. exact Hl.
Qed.

Lemma builtin_classes_ok : Forall class_ok builtin_classes.
Proof. repeat constructor. Qed.

Lemma createFigure_after_registration_witness :
  createFigure main_factory eTriangle [Circle.new]
  = (Some 1, [Circle.new; Triangle.new]) /\
  Figure.type Triangle.new = eTriangle.
Proof.
  exact (createFigure_after_registration builtin_classes eTriangle
           [Circle.new] builtin_classes_ok).
Defined.

End Registration.

(** ** Drawing with surplus parameters *)

Section Surplus.

Implicit Types (params : list double).

(** X7.  With at least the required number of parameters each figure makes
    exactly one call: [Circle] passes the first three values and ignores the
    others, [Triangle] and [Square] pass the whole list, surplus values
    included. *)
Theorem draw_surplus params :
  (Circle.COUNT_PARAMS <= length params ->
   exists x y r rest,
     params = x :: y :: r :: rest /\
     Figure.draw Circle.new params = Some [drawCircle x y r]) /\
  (Triangle.COUNT_PARAMS <= length params ->
   Figure.draw Triangle.new params = Some [drawPoligon params]) /\
  (Square.COUNT_PARAMS <= length params ->
   Figure.draw Square.new params = Some [drawPoligon params]).
Proof.
  split; [|split].
  - apply Circle_draw_enough.
  - intros Hlen. simpl. unfold Triangle.draw.
    apply polygon_draw_enough. exact Hlen.
  - intros Hlen. simpl. unfold Square.draw.
    apply polygon_draw_enough. exact Hlen.
Qed.

Lemma draw_surplus_witness :
  Figure.draw Triangle.new [d1; d2; d3; d1; d2; d3; d1]
  = Some [drawPoligon [d1; d2; d3; d1; d2; d3; d1]].
Proof.
  apply (draw_surplus [d1; d2; d3; d1; d2; d3; d1]).
  unfold Triangle.COUNT_PARAMS. simpl. lia.
Defined.

End Surplus.

(** ** [Feature::read] on any reader *)

Section ReadPaths.

Context `{IReader R}.

Implicit Types (figureFactory : Factory) (self : Feature.Feature).
Implicit Types (h : heap) (reader : R) (type : Type_).

(** Each outcome is the result of the corresponding run of [Feature::read]. *)
Lemma read_outcome_sound figureFactory reader self h ok self' h' reader' :
  read_outcome figureFactory reader self h ok self' h' reader' ->
  Feature.read figureFactory reader self h = Some (ok, self', h', reader').
Proof.
  assert (forall type p self1 h1,
    resolved figureFactory self h type p self1 h1 ->
    match Feature.figures self !! type with
    | Some q => Some (q, self, h)
    | None =>
        match createFigure figureFactory type h with
        | (None, _) => None
        | (Some figure, h2) =>
            Some (figure,
                  Feature.mkFeature (<[type := figure]> (Feature.figures self))
                    (Feature.currentFigure self) (Feature.currentParams self),
                  h2)
        end
    end = Some (p, self1, h1)) as Hres.
  { intros type p self1 h1 [q Hq | Impl Hmiss Hreg].
    - rewrite Hq. reflexivity.
    - rewrite Hmiss, (createFigure_registered _ _ _ _ Hreg). reflexivity. }
  intros Hout. unfold Feature.read.
  destruct Hout as [r1 Htag | tag r1 Htag Hc Hreg
                   | tag r1 p self1 h1 obj r2 Htag Hr Hobj Hpar
                   | tag r1 p self1 h1 obj raw r2 Htag Hr Hobj Hpar];
    rewrite Htag; cbv zeta.
  - reflexivity.
  - rewrite Hc, (createFigure_unregistered _ _ _ Hreg). reflexivity.
  - rewrite (Hres _ _ _ _ Hr), Hobj, Hpar. reflexivity.
  - rewrite (Hres _ _ _ _ Hr), Hobj, Hpar. reflexivity.
Qed.

Lemma read_outcome_complete figureFactory reader self h ok self' h' reader' :
  Feature.read figureFactory reader self h = Some (ok, self', h', reader') ->
  read_outcome figureFactory reader self h ok self' h' reader'.
Proof.
  unfold Feature.read.
  destruct (read reader true sizeof_Type 1) as [[tag|] r1] eqn:Htag.
  2:{ intros [= <- <- <- <-]. by apply tag_short. }
  cbv zeta.
  assert (forall p self1 h1,
    resolved figureFactory self h (Type_of_bytes tag) p self1 h1 ->
    match h1 !! p with
    | Some obj =>
        match read r1 (Feature.vector_data (countParams obj))
                sizeof_double (countParams obj) with
        | (Some raw, r2) =>
            Some (true,
                  Feature.mkFeature (Feature.figures self1) (Some p)
                    (doubles_of_bytes (countParams obj) raw),
                  h1, r2)
        | (None, r2) => Some (false, self1, h1, r2)
        end
    | None => None
    end = Some (ok, self', h', reader') ->
    read_outcome figureFactory reader self h ok self' h' reader') as Htail.
  { intros p self1 h1 Hres.
    destruct (h1 !! p) as [obj|] eqn:Hobj; [|discriminate].
    destruct (read r1 _ _ _) as [[raw|] r2] eqn:Hpar; intros [= <- <- <- <-].
    - by eapply decoded.
    - by eapply params_short. }
  destruct (Feature.figures self !! Type_of_bytes tag) as [p|] eqn:Hc.
  - apply Htail. by apply resolved_cached.
  - unfold createFigure.
    destruct (figureFactory !! Type_of_bytes tag) as [Impl|] eqn:Hreg.
    + simpl. apply (Htail _ _ _ (resolved_created _ _ _ _ Impl Hc Hreg)).
    + intros [= <- <- <- <-]. by eapply unknown_kind.
Qed.

Lemma resolved_count figureFactory self h type p self1 h1 obj :
  resolved figureFactory self h type p self1 h1 ->
  h1 !! p = Some obj ->
  count_for figureFactory self h type = Some (countParams obj).
Proof.
  intros [q Hq | Impl Hmiss Hreg] Hobj; unfold count_for.
  - rewrite Hq, Hobj. reflexivity.
  - rewrite Hmiss, Hreg. rewrite lookup_fresh in Hobj.
    injection Hobj as <-. reflexivity.
Qed.

(** X8.  A read that fails at the parameters, for a kind that was not cached
    and is registered, has all the same constructed the figure and added it
    to the cache: only the held record is as before.  The next read of that
    kind finds the figure in the cache and allocates nothing. *)
Theorem short_params_still_caches figureFactory reader self h tag reader1
    Impl reader2 :
  read reader true sizeof_Type 1 = (Some tag, reader1) ->
  Feature.figures self !! Type_of_bytes tag = None ->
  figureFactory !! Type_of_bytes tag = Some Impl ->
  read reader1 (Feature.vector_data (countParams (construct Impl)))
       sizeof_double (countParams (construct Impl)) = (None, reader2) ->
  let self1 :=
    Feature.mkFeature
      (<[Type_of_bytes tag := length h]> (Feature.figures self))
      (Feature.currentFigure self) (Feature.currentParams self) in
  let h1 := h ++ [construct Impl] in
  Feature.read figureFactory reader self h = Some (false, self1, h1, reader2) /\
  forall next tag' next1,
    read next true sizeof_Type 1 = (Some tag', next1) ->
    Type_of_bytes tag' = Type_of_bytes tag ->
    exists ok self2 next2,
      Feature.read figureFactory next self1 h1 = Some (ok, self2, h1, next2) /\
      Feature.figures self2 = Feature.figures self1.
Proof.
  intros Htag Hmiss Hreg Hpar self1 h1. split.
  - apply read_outcome_sound.
    eapply params_short;
      [exact Htag | by apply resolved_created | apply lookup_fresh | exact Hpar].
  - intros next tag' next1 Htag' Hsame.
    assert (resolved figureFactory self1 h1 (Type_of_bytes tag') (length h)
              self1 h1) as Hres.
    { apply resolved_cached. rewrite Hsame. apply lookup_insert_eq. }
    destruct (read next1 (Feature.vector_data (countParams (construct Impl)))
                sizeof_double (countParams (construct Impl)))
      as [[raw|] next2] eqn:Hpar'.
    + eexists true, _, next2. split.
      * apply read_outcome_sound.
        eapply decoded;
          [exact Htag' | exact Hres | apply lookup_fresh | exact Hpar'].
      * reflexivity.
    + eexists false, _, next2. split.
      * apply read_outcome_sound.
        eapply params_short;
          [exact Htag' | exact Hres | apply lookup_fresh | exact Hpar'].
      * reflexivity.
Qed.

End ReadPaths.

Lemma short_params_still_caches_witness :
  Feature.read main_factory (mkFile (Some truncated_record)) Feature.new []
  = Some (false, Feature.mkFeature {[eCircle := 0]} None [], [Circle.new],
          mkFile (Some [])) /\
  forall (next : File) tag' next1,
    read next true sizeof_Type 1 = (Some tag', next1) ->
    Type_of_bytes tag' = eCircle ->
    exists ok self2 next2,
      Feature.read main_factory next
        (Feature.mkFeature {[eCircle := 0]} None []) [Circle.new]
      = Some (ok, self2, [Circle.new], next2) /\
      Feature.figures self2 = {[eCircle := 0]}.
Proof.
  exact (short_params_still_caches main_factory
           (mkFile (Some truncated_record)) Feature.new []
           (take 4 truncated_record)
           (mkFile (Some (drop 4 truncated_record)))
           Circle.class (mkFile (Some []))
           eq_refl eq_refl eq_refl eq_refl).
Defined.

(** ** [Feature::read] on a file *)

Section ReadFile.

Implicit Types (figureFactory : Factory) (self : Feature.Feature).
Implicit Types (h : heap) (stream rest : list Byte.byte).

Lemma File_read_None stream size count (reader' : File) :
  0 < size -> 0 < count ->
  read (mkFile (Some stream)) true size count = (None, reader') ->
  length stream < size * count /\ reader' = mkFile (Some []).
Proof.
  intros Hsize Hcount Hread.
  destruct (decide (size * count <= length stream)) as [Hfit|Hshort].
  - assert (read (mkFile (Some stream)) true size count
            = (Some (take (size * count) stream),
               mkFile (Some (drop (size * count) stream)))) as Hok.
    { apply File_read_Some. split; [reflexivity|]. exists stream.
      split; [reflexivity|]. split; [right; split; assumption|].
      split; reflexivity. }
    rewrite Hok in Hread. discriminate Hread.
  - split; [lia|].
    rewrite (File_read_short stream size count Hcount) in Hread by (right; lia).
    destruct size; [lia|]. simpl in Hread. congruence.
Qed.

(** All ways through [Feature::read] when the reader is an open file. *)
Lemma read_File_cases figureFactory stream self h :
  wf figureFactory h self ->
  exists ok self' h' rest,
    Feature.read figureFactory (mkFile (Some stream)) self h
    = Some (ok, self', h', mkFile (Some rest)) /\
    let found := count_for figureFactory self h (Type_of_bytes stream) in
    ((ok = false /\ length stream < sizeof_Type /\ rest = [] /\
      self' = self /\ h' = h) \/
     (ok = false /\ sizeof_Type <= length stream /\ found = None /\
      rest = drop sizeof_Type stream /\ self' = self /\ h' = h) \/
     (ok = false /\ sizeof_Type <= length stream /\ found = Some 0 /\
      rest = drop sizeof_Type stream) \/
     (exists count,
        ok = false /\ sizeof_Type <= length stream /\ found = Some count /\
        0 < count /\
        length stream < sizeof_Type + sizeof_double * count /\ rest = []) \/
     (exists count,
        ok = true /\ found = Some count /\ 0 < count /\
        sizeof_Type + sizeof_double * count <= length stream /\
        rest = drop (sizeof_Type + sizeof_double * count) stream /\
        Feature.currentParams self'
        = doubles_of_bytes count
            (take (sizeof_double * count) (drop sizeof_Type stream)) /\
        exists p obj,
          Feature.currentFigure self' = Some p /\ h' !! p = Some obj /\
          countParams obj = count /\
          Feature.figures self' !! Type_of_bytes stream = Some p)).
Proof.
  intros Hwf.
  destruct (read_outcome_total figureFactory (mkFile (Some stream)) self h Hwf)
    as (ok & self' & h' & reader' & Hread & Hout).
  assert (0 < sizeof_Type) as Hst by (unfold sizeof_Type; lia).
  assert (0 < sizeof_double) as Hsd by (unfold sizeof_double; lia).
  destruct Hout as [r1 Htag | tag r1 Htag Hc Hreg
                   | tag r1 p self1 h1 obj r2 Htag Hres Hobj Hpar
                   | tag r1 p self1 h1 obj raw r2 Htag Hres Hobj Hpar].
  - apply File_read_None in Htag as [Hlen ->]; [|exact Hst|lia].
    eexists _, _, _, _. split; [exact Hread|]. left.
    rewrite Nat.mul_1_r in Hlen. auto.
  - apply File_read_Some in Htag as (_ & s & [= <-] & Hfit & -> & ->).
    rewrite Nat.mul_1_r in *. rewrite Type_of_bytes_take in Hc, Hreg.
    eexists _, _, _, _. split; [exact Hread|]. right. left.
    split; [reflexivity|]. split; [lia|].
    split; [unfold count_for; rewrite Hc, Hreg; reflexivity | auto].
  - apply File_read_Some in Htag as (_ & s & [= <-] & Hfit & -> & ->).
    rewrite Nat.mul_1_r in *. rewrite Type_of_bytes_take in Hres.
    pose proof (resolved_count _ _ _ _ _ _ _ _ Hres Hobj) as Hcount.
    destruct (countParams obj) as [|n] eqn:Hn.
    + simpl in Hpar. injection Hpar as <-.
      eexists _, _, _, _. split; [exact Hread|]. right. right. left.
      split; [reflexivity|]. split; [lia|]. split; [exact Hcount|reflexivity].
    + apply File_read_None in Hpar as [Hlen ->]; [|exact Hsd|lia].
      rewrite length_drop in Hlen.
      eexists _, _, _, _. split; [exact Hread|]. right. right. right. left.
      exists (S n). split; [reflexivity|]. split; [lia|].
      split; [exact Hcount|]. split; [lia|]. split; [lia|reflexivity].
  - apply File_read_Some in Htag as (_ & s & [= <-] & Hfit & -> & ->).
    rewrite Nat.mul_1_r in *. rewrite Type_of_bytes_take in Hres.
    pose proof (resolved_count _ _ _ _ _ _ _ _ Hres Hobj) as Hcount.
    apply File_read_Some in Hpar as (Hdst & s & [= <-] & Hfit2 & -> & ->).
    rewrite length_drop in Hfit2. rewrite drop_drop in Hread.
    assert (0 < countParams obj) as Hpos.
    { unfold Feature.vector_data in Hdst.
      destruct (countParams obj); [discriminate Hdst | lia]. }
    destruct (resolved_spec _ _ _ _ _ _ _ Hwf Hres) as (_ & _ & Hcache & _).
    eexists _, _, _, _. split; [exact Hread|]. right. right. right. right.
    exists (countParams obj). split; [reflexivity|]. split; [exact Hcount|].
    split; [exact Hpos|]. split; [lia|]. split; [reflexivity|].
    split; [reflexivity|]. exists p, obj. simpl.
    split; [reflexivity|]. split; [exact Hobj|]. split; [reflexivity|].
    exact Hcache.
Qed.

(** C7.  [Circle], [Triangle] and [Square] are constructed with
    [countParams] 3, 6 and 8, and no decode changes an object of the heap.
    Decoding from a file succeeds exactly when the kind read resolves to a
    figure with a non-zero [countParams] and the file holds the kind tag and
    that many values of 8 bytes.  A successful [Feature::read] took exactly
    the tag and [countParams] values off the stream and holds exactly these
    values; when the stream is shorter than that, the read returns [false]
    and the held figure and parameters are as before. *)
Theorem decode_consumes_exact_count figureFactory stream self h :
  wf figureFactory h self ->
  (countParams Circle.new = 3 /\ countParams Triangle.new = 6 /\
   countParams Square.new = 8) /\
  exists ok self' h' rest,
    Feature.read figureFactory (mkFile (Some stream)) self h
    = Some (ok, self', h', mkFile (Some rest)) /\
    (forall p obj, h !! p = Some obj -> h' !! p = Some obj) /\
    (ok = true <->
     exists count,
       count_for figureFactory self h (Type_of_bytes stream) = Some count /\
       0 < count /\
       sizeof_Type + sizeof_double * count <= length stream) /\
    (ok = true ->
     exists p obj,
       Feature.currentFigure self' = Some p /\ h' !! p = Some obj /\
       count_for figureFactory self h (Type_of_bytes stream)
       = Some (countParams obj) /\
       length (Feature.currentParams self') = countParams obj /\
       sizeof_Type + sizeof_double * countParams obj <= length stream /\
       Feature.currentParams self'
       = doubles_of_bytes (countParams obj)
           (take (sizeof_double * countParams obj) (drop sizeof_Type stream)) /\
       rest = drop (sizeof_Type + sizeof_double * countParams obj) stream) /\
    (ok = false ->
     Feature.currentFigure self' = Feature.currentFigure self /\
     Feature.currentParams self' = Feature.currentParams self) /\
    (forall p obj,
       Feature.figures self' !! Type_of_bytes stream = Some p ->
       h' !! p = Some obj ->
       length stream < sizeof_Type + sizeof_double * countParams obj ->
       ok = false).
Proof.
  intros Hwf. split; [split; [|split]; reflexivity|].
  destruct (read_File_cases figureFactory stream self h Hwf)
    as (ok & self' & h' & rest & Hread & Hcases).
  pose proof (read_outcome_complete _ _ _ _ _ _ _ _ Hread) as Hout.
  destruct (read_outcome_spec _ _ _ _ _ _ _ _ Hwf Hout)
    as (_ & Hpre & _ & _ & Hfail & _).
  exists ok, self', h', rest. split; [exact Hread|].
  split.
  { intros p obj Hobj. exact (prefix_lookup_Some _ _ _ _ Hobj Hpre). }
  cbv zeta in Hcases.
  assert (ok = true ->
    exists p obj,
      Feature.figures self' !! Type_of_bytes stream = Some p /\
      Feature.currentFigure self' = Some p /\ h' !! p = Some obj /\
      count_for figureFactory self h (Type_of_bytes stream)
      = Some (countParams obj) /\
      0 < countParams obj /\
      length (Feature.currentParams self') = countParams obj /\
      sizeof_Type + sizeof_double * countParams obj <= length stream /\
      Feature.currentParams self'
      = doubles_of_bytes (countParams obj)
          (take (sizeof_double * countParams obj) (drop sizeof_Type stream)) /\
      rest = drop (sizeof_Type + sizeof_double * countParams obj) stream)
    as Hsucc.
  { intros Hok.
    destruct Hcases as [(Hf & _)|[(Hf & _)|[(Hf & _)|[(n & Hf & _)|Hdone]]]];
      try congruence.
    destruct Hdone
      as (n & _ & Hn & Hpos & Hlen & Hrest & Hpar & p & obj & Hcur & Hobj
          & Hcount & Hcache).
    subst n. exists p, obj.
    split; [exact Hcache|]. split; [exact Hcur|]. split; [exact Hobj|].
    split; [exact Hn|]. split; [exact Hpos|].
    split; [rewrite Hpar; apply length_doubles_of_bytes|].
    split; [exact Hlen|]. split; [exact Hpar | exact Hrest]. }
  split; [|split; [|split]].
  - split.
    + intros Hok.
      destruct (Hsucc Hok) as (p & obj & _ & _ & _ & Hn & Hpos & _ & Hlen & _).
      exists (countParams obj). auto.
    + intros (n & Hn & Hpos & Hlen).
      destruct Hcases as [(_ & Hshort & _)
                         |[(_ & _ & Hnone & _)
                          |[(_ & _ & Hzero & _)
                           |[(m & _ & _ & Hm & _ & Hshort & _)
                            |(m & Hok & _)]]]].
      * lia.
      * congruence.
      * rewrite Hzero in Hn. injection Hn as <-. lia.
      * rewrite Hm in Hn. injection Hn as <-. lia.
      * exact Hok.
  - intros Hok.
    destruct (Hsucc Hok)
      as (p & obj & _ & Hcur & Hobj & Hn & _ & Hlen & Hfit & Hpar & Hrest).
    exists p, obj. auto 10.
  - exact Hfail.
  - intros p obj Hcache Hobj Hshort. destruct ok; [|reflexivity].
    destruct (Hsucc eq_refl)
      as (p' & obj' & Hcache' & _ & Hobj' & _ & _ & _ & Hfit & _).
    rewrite Hcache in Hcache'. injection Hcache' as <-.
    rewrite Hobj in Hobj'. injection Hobj' as <-. lia.
Qed.

(** X9.  Reading from an open file succeeds exactly when the file still holds
    a kind tag, the kind is cached or registered with a non-zero parameter
    count, and the file holds that many parameters after the tag. *)
Theorem read_File_succeeds_iff figureFactory stream self h :
  wf figureFactory h self ->
  exists ok self' h' rest,
    Feature.read figureFactory (mkFile (Some stream)) self h
    = Some (ok, self', h', mkFile (Some rest)) /\
    (ok = true <->
     exists count,
       count_for figureFactory self h (Type_of_bytes stream) = Some count /\
       0 < count /\
       sizeof_Type + sizeof_double * count <= length stream).
Proof.
  intros Hwf.
  destruct (read_File_cases figureFactory stream self h Hwf)
    as (ok & self' & h' & rest & Hread & Hcases).
  exists ok, self', h', rest. split; [exact Hread|].
  cbv zeta in Hcases.
  destruct Hcases as [(-> & Hlen & _)
                     |[(-> & _ & Hnone & _)
                      |[(-> & _ & Hzero & _)
                       |[(n & -> & _ & Hn & _ & Hlen & _)
                        |(n & -> & Hn & Hpos & Hlen & _)]]]].
  - split; [discriminate|]. intros (n & _ & _ & Hfit). lia.
  - split; [discriminate|]. intros (n & Hn & _). congruence.
  - split; [discriminate|]. intros (n & Hn & Hpos & _).
    rewrite Hzero in Hn. injection Hn as <-. lia.
  - split; [discriminate|]. intros (m & Hm & _ & Hfit).
    rewrite Hn in Hm. injection Hm as <-. lia.
  - split; [|reflexivity]. intros _. exists n. auto.
Qed.

(** X10.  Where a failed read leaves an open file: at its end when the tag or
    the parameters were cut short; right behind the kind tag, with the rest
    of that record unread, when the kind is unknown (or has no parameters);
    an unknown kind also leaves the decoder and the heap untouched. *)
Theorem read_File_failure_position figureFactory stream self h :
  wf figureFactory h self ->
  exists ok self' h' rest,
    Feature.read figureFactory (mkFile (Some stream)) self h
    = Some (ok, self', h', mkFile (Some rest)) /\
    (ok = false ->
     let found := count_for figureFactory self h (Type_of_bytes stream) in
     (rest = [] /\
      (length stream < sizeof_Type \/
       exists count,
         found = Some count /\
         length stream < sizeof_Type + sizeof_double * count)) \/
     (rest = drop sizeof_Type stream /\ sizeof_Type <= length stream /\
      ((found = None /\ self' = self /\ h' = h) \/ found = Some 0))).
Proof.
  intros Hwf.
  destruct (read_File_cases figureFactory stream self h Hwf)
    as (ok & self' & h' & rest & Hread & Hcases).
  exists ok, self', h', rest. split; [exact Hread|].
  intros Hok. cbv zeta in *.
  destruct Hcases as [(_ & Hlen & -> & _)
                     |[(_ & Hlen & Hnone & -> & -> & ->)
                      |[(_ & Hlen & Hzero & ->)
                       |[(n & _ & _ & Hn & _ & Hlen & ->)
                        |(n & Hfalse & _)]]]].
  - left. auto.
  - right. split; [reflexivity|]. split; [exact Hlen|]. left. auto.
  - right. split; [reflexivity|]. split; [exact Hlen|]. right. exact Hzero.
  - left. split; [reflexivity|]. right. exists n. auto.
  - congruence.
Qed.

(** X11.  A successful read from a file depends only on the bytes of the
    record: with any bytes appended to the file the result is the same and
    the appended bytes are all left unread, so that a next read starts at the
    byte following the record. *)
Theorem read_File_framing figureFactory stream self h self' h' rest extra :
  Feature.read figureFactory (mkFile (Some stream)) self h
  = Some (true, self', h', mkFile (Some rest)) ->
  Feature.read figureFactory (mkFile (Some (stream ++ extra))) self h
  = Some (true, self', h', mkFile (Some (rest ++ extra))).
Proof.
  intros Hread. apply read_outcome_complete in Hread.
  apply read_outcome_sound.
  remember true as ok eqn:Hok.
  remember (mkFile (Some rest)) as reader' eqn:Hrest.
  destruct Hread as [| | |tag r1 p self1 h1 obj raw r2 Htag Hres Hobj Hpar];
    try discriminate Hok.
  apply File_read_Some in Htag as (_ & s & Hs & Hfit & -> & ->).
  injection Hs as <-.
  apply File_read_Some in Hpar as (Hdst & s & Hs & Hfit2 & -> & ->).
  injection Hs as <-.
  change (sizeof_Type * 1) with 4 in *.
  assert (rest = drop (sizeof_double * countParams obj) (drop 4 stream))
    as -> by congruence.
  clear Hrest.
  assert (4 <= length stream) as Hlen1.
  { destruct Hfit as [?|[_ ?]]; [lia | assumption]. }
  assert (sizeof_double * countParams obj <= length (drop 4 stream))
    as Hlen2.
  { destruct Hfit2 as [Hz|[_ ?]]; [rewrite Hz; lia | assumption]. }
  assert (read (mkFile (Some (stream ++ extra))) true sizeof_Type 1
          = (Some (take 4 stream), mkFile (Some (drop 4 stream ++ extra))))
    as Htag'.
  { apply File_read_Some. split; [reflexivity|]. exists (stream ++ extra).
    split; [reflexivity|]. rewrite length_app.
    split; [right; unfold sizeof_Type; lia|].
    change (sizeof_Type * 1) with 4.
    rewrite take_app_le, drop_app_le by exact Hlen1. split; reflexivity. }
  eapply decoded; [exact Htag' | exact Hres | exact Hobj |].
  apply File_read_Some. split; [exact Hdst|].
  exists (drop 4 stream ++ extra).
  split; [reflexivity|]. rewrite length_app.
  split.
  { destruct Hfit2 as [Hz|[Hs Hl]];
      [left; exact Hz | right; split; [exact Hs | lia]]. }
  rewrite take_app_le, drop_app_le by exact Hlen2.
  split; reflexivity.
Qed.

End ReadFile.

Lemma decode_consumes_exact_count_witness :
  wf main_factory [] Feature.new /\
  exists self' h',
    Feature.read main_factory (mkFile (Some circle_record)) Feature.new []
    = Some (true, self', h', mkFile (Some [])) /\
    Feature.currentParams self' = [d1; d2; d3] /\
    length (Feature.currentParams self') = 3.
Proof.
  split; [apply wf_new|].
  destruct (decode_consumes_exact_count main_factory circle_record
              Feature.new [] (wf_new _ _))
    as (_ & ok & self' & h' & rest & Hread & _ & Hiff & Hsucc & _).
  assert (ok = true) as Hok.
  { apply Hiff. exists 3. split; [reflexivity|]. split; [lia | simpl; lia]. }
  destruct (Hsucc Hok)
    as (p & obj & _ & _ & Hcount & Hlen & _ & Hpar & Hrest).
  assert (countParams obj = 3) as Hn by (injection Hcount as <-; reflexivity).
  rewrite Hn in Hlen, Hpar, Hrest.
  exists self', h'. rewrite Hok, Hrest in Hread.
  split; [exact Hread|]. split; [exact Hpar | exact Hlen].
Defined.

Lemma read_File_succeeds_iff_witness :
  wf main_factory [] Feature.new /\
  exists ok self' h' rest,
    Feature.read main_factory (mkFile (Some circle_record)) Feature.new []
    = Some (ok, self', h', mkFile (Some rest)) /\
    (ok = true <->
     exists count,
       count_for main_factory Feature.new [] (Type_of_bytes circle_record)
       = Some count /\
       0 < count /\
       sizeof_Type + sizeof_double * count <= length circle_record).
Proof.
  split; [apply wf_new|].
  exact (read_File_succeeds_iff main_factory circle_record Feature.new []
           (wf_new _ _)).
Defined.

Lemma read_File_failure_position_witness :
  wf main_factory [Circle.new] held_circle /\
  exists ok self' h' rest,
    Feature.read main_factory (mkFile (Some unknown_record)) held_circle
      [Circle.new]
    = Some (ok, self', h', mkFile (Some rest)) /\
    (ok = false ->
     let found :=
       count_for main_factory held_circle [Circle.new]
         (Type_of_bytes unknown_record) in
     (rest = [] /\
      (length unknown_record < sizeof_Type \/
       exists count,
         found = Some count /\
         length unknown_record < sizeof_Type + sizeof_double * count)) \/
     (rest = drop sizeof_Type unknown_record /\
      sizeof_Type <= length unknown_record /\
      ((found = None /\ self' = held_circle /\ h' = [Circle.new]) \/
       found = Some 0))).
Proof.
  split; [exact held_circle_wf|].
  exact (read_File_failure_position main_factory unknown_record held_circle
           [Circle.new] held_circle_wf).
Defined.

Lemma read_File_framing_witness :
  Feature.read main_factory (mkFile (Some (circle_record ++ unknown_record)))
    Feature.new []
  = Some (true, held_circle, [Circle.new],
          mkFile (Some ([] ++ unknown_record))).
Proof.
  assert (Feature.read main_factory (mkFile (Some circle_record))
            Feature.new []
          = Some (true, held_circle, [Circle.new], mkFile (Some [])))
    as Hread by reflexivity.
  exact (read_File_framing main_factory circle_record Feature.new []
           held_circle [Circle.new] [] unknown_record Hread).
Defined.

(** ** What holds from construction on *)

Section FromConstruction.

Context `{IReader R}.

Implicit Types (figureFactory : Factory) (self : Feature.Feature).
Implicit Types (h : heap) (reader : R) (ops : list (op R)).

(** A property kept by every outcome of [Feature::read] is kept by every
    sequence of operations. *)
Lemma run_invariant figureFactory (P : heap -> Feature.Feature -> Prop) :
  (forall reader self h ok self' h' reader',
     wf figureFactory h self -> P h self ->
     read_outcome figureFactory reader self h ok self' h' reader' ->
     P h' self') ->
  forall ops self h self' h' log,
    wf figureFactory h self -> P h self ->
    run figureFactory ops self h = Some (self', h', log) ->
    P h' self'.
Proof.
  intros Hstep.
  induction ops as [|[reader|] ops IH]; intros self h self' h' log Hwf HP Hrun;
    simpl in Hrun.
  - injection Hrun as <- <- <-. exact HP.
  - destruct (read_outcome_total figureFactory reader self h Hwf)
      as (ok & self1 & h1 & r1 & Hread & Hout).
    rewrite Hread in Hrun. simpl in Hrun.
    destruct (read_outcome_spec _ _ _ _ _ _ _ _ Hwf Hout) as (Hwf1 & _).
    exact (IH _ _ _ _ _ Hwf1 (Hstep _ _ _ _ _ _ _ Hwf HP Hout) Hrun).
  - destruct (Feature.draw self h) as [[calls self1]|] eqn:Hdraw;
      simpl in Hrun; [|discriminate].
    apply draw_inv in Hdraw as ->.
    destruct (run figureFactory ops self h) as [[[self2 h2] log2]|] eqn:Hrest;
      simpl in Hrun; [|discriminate].
    injection Hrun as <- <- <-.
    exact (IH _ _ _ _ _ Hwf HP Hrest).
Qed.

Lemma resolved_owns figureFactory self h type p self1 h1 :
  owns h self ->
  resolved figureFactory self h type p self1 h1 ->
  owns h1 self1.
Proof.
  intros [Hrange Hinj] [q Hq | Impl Hmiss Hreg]; [by split|].
  split; simpl.
  - intros q. rewrite length_app. simpl. split.
    + intros Hlt. destruct (decide (q = length h)) as [->|Hne].
      * exists type. apply lookup_insert_eq.
      * destruct (proj1 (Hrange q)) as [t Ht]; [lia|].
        exists t. rewrite lookup_insert_ne; [exact Ht|].
        intros <-. rewrite Hmiss in Ht. discriminate Ht.
    + intros [t Ht]. apply lookup_insert_Some in Ht as [[_ <-]|[_ Ht]];
        [lia|].
      assert (q < length h) by (apply Hrange; eauto). lia.
  - intros t1 t2 q Ht1 Ht2.
    apply lookup_insert_Some in Ht1 as [[<- <-]|[Hne1 Ht1]];
      apply lookup_insert_Some in Ht2 as [[<- Heq]|[Hne2 Ht2]].
    + reflexivity.
    + assert (length h < length h) by (apply Hrange; eauto). lia.
    + subst q. assert (length h < length h) by (apply Hrange; eauto). lia.
    + exact (Hinj _ _ _ Ht1 Ht2).
Qed.

Lemma read_outcome_owns figureFactory reader self h ok self' h' reader' :
  wf figureFactory h self ->
  owns h self /\
  (forall p, Feature.currentFigure self = Some p ->
             exists type, Feature.figures self !! type = Some p) ->
  read_outcome figureFactory reader self h ok self' h' reader' ->
  owns h' self' /\
  (forall p, Feature.currentFigure self' = Some p ->
             exists type, Feature.figures self' !! type = Some p).
Proof.
  intros Hwf [Hown Hcur] Hout.
  assert (forall type p self1 h1,
    resolved figureFactory self h type p self1 h1 ->
    forall q, Feature.currentFigure self1 = Some q ->
              exists t, Feature.figures self1 !! t = Some q) as Hkeep.
  { intros type p self1 h1 Hres q Hq.
    destruct (resolved_spec _ _ _ _ _ _ _ Hwf Hres)
      as (_ & _ & _ & Hfig & _ & _ & Hsub & _).
    rewrite Hfig in Hq. destruct (Hcur q Hq) as [t Ht].
    exists t. exact (lookup_weaken _ _ _ _ Ht Hsub). }
  destruct Hout as [r1 Htag | tag r1 Htag Hc Hreg
                   | tag r1 p self1 h1 obj r2 Htag Hres Hobj Hpar
                   | tag r1 p self1 h1 obj raw r2 Htag Hres Hobj Hpar].
  - by split.
  - by split.
  - split; [by eapply resolved_owns | by eapply Hkeep].
  - split.
    + pose proof (resolved_owns _ _ _ _ _ _ _ Hown Hres) as [? ?]. by split.
    + simpl. intros q [= <-].
      destruct (resolved_spec _ _ _ _ _ _ _ Hwf Hres) as (_ & _ & Hcache & _).
      eauto.
Qed.

(** X12.  From its construction on, whatever is decoded and rendered, the
    decoder's cache owns every figure ever constructed: each object of the
    heap is the cached instance of exactly one kind, there are as many
    objects as cached kinds, and the held figure is one of the cached
    ones. *)
Theorem cache_owns_heap figureFactory ops self h log :
  run figureFactory ops Feature.new [] = Some (self, h, log) ->
  owns h self /\
  length h = size (Feature.figures self) /\
  forall p, Feature.currentFigure self = Some p ->
            exists type, Feature.figures self !! type = Some p.
Proof.
  intros Hrun.
  pose proof (wf_new figureFactory []) as Hwf.
  destruct (run_inv _ _ _ _ _ _ _ Hwf Hrun) as (_ & _ & _ & Hcount & _).
  simpl in Hcount. rewrite map_size_empty in Hcount.
  assert (owns h self /\
          (forall p, Feature.currentFigure self = Some p ->
                     exists type, Feature.figures self !! type = Some p))
    as [Hown Hcur].
  { apply (run_invariant figureFactory _ (read_outcome_owns figureFactory)
             ops Feature.new [] self h log Hwf); [|exact Hrun].
    split; [split|].
    - intros p. simpl. split; [lia|].
      intros [t Ht]. rewrite lookup_empty in Ht. discriminate Ht.
    - simpl. intros t1 t2 p Ht1. rewrite lookup_empty in Ht1.
      discriminate Ht1.
    - intros p Hp. discriminate Hp. }
  split; [exact Hown|]. split; [lia | exact Hcur].
Qed.

Lemma builtin_draw_call (Impl : FigureImpl) (params : list double) :
  Impl ∈ builtin_classes ->
  countParams (construct Impl) <= length params ->
  Figure.draw (construct Impl) params
  = Some [builtin_call (TYPE Impl) params].
Proof.
  intros Hin Hlen. unfold builtin_classes in Hin.
  repeat (apply elem_of_cons in Hin as [->|Hin]);
    [| | | apply elem_of_nil in Hin; contradiction]; simpl in *.
  - destruct (Circle_draw_enough params Hlen) as (x & y & r & rest & -> & ->).
    reflexivity.
  - unfold Triangle.draw. rewrite polygon_draw_enough by exact Hlen.
    reflexivity.
  - unfold Square.draw. rewrite polygon_draw_enough by exact Hlen.
    reflexivity.
Qed.

Lemma read_outcome_held reader self h ok self' h' reader' :
  wf main_factory h self ->
  Forall (fun obj => exists Impl,
            Impl ∈ builtin_classes /\ obj = construct Impl) h /\
  (forall p obj,
     Feature.currentFigure self = Some p -> h !! p = Some obj ->
     length (Feature.currentParams self) = countParams obj) ->
  read_outcome main_factory reader self h ok self' h' reader' ->
  Forall (fun obj => exists Impl,
            Impl ∈ builtin_classes /\ obj = construct Impl) h' /\
  (forall p obj,
     Feature.currentFigure self' = Some p -> h' !! p = Some obj ->
     length (Feature.currentParams self') = countParams obj).
Proof.
  intros Hwf [Hh Hheld] Hout.
  assert (forall type p self1 h1,
    resolved main_factory self h type p self1 h1 ->
    Forall (fun obj => exists Impl,
              Impl ∈ builtin_classes /\ obj = construct Impl) h1 /\
    (forall q obj,
       Feature.currentFigure self1 = Some q -> h1 !! q = Some obj ->
       length (Feature.currentParams self1) = countParams obj)) as Hres.
  { intros type p self1 h1 [q Hq | Impl Hmiss Hreg]; [by split|].
    split.
    - apply Forall_app. split; [exact Hh|]. apply Forall_singleton.
      exists Impl. split; [|reflexivity].
      apply main_factory_lookup in Hreg as [[_ ->]|[[_ ->]|[_ ->]]];
        unfold builtin_classes; set_solver.
    - simpl. intros q obj Hq Hobj.
      destruct Hwf as [_ Hcur]. specialize (Hcur q Hq).
      rewrite lookup_app_l in Hobj by exact Hcur. exact (Hheld _ _ Hq Hobj). }
  destruct Hout as [r1 Htag | tag r1 Htag Hc Hreg
                   | tag r1 p self1 h1 obj r2 Htag Hr Hobj Hpar
                   | tag r1 p self1 h1 obj raw r2 Htag Hr Hobj Hpar].
  - by split.
  - by split.
  - exact (Hres _ _ _ _ Hr).
  - destruct (Hres _ _ _ _ Hr) as [Hh1 _]. split; [exact Hh1|].
    simpl. intros q obj' [= <-] Hobj'.
    rewrite Hobj in Hobj'. injection Hobj' as <-.
    apply length_doubles_of_bytes.
Qed.

(** X13.  With the program's factory, from construction on: whenever a record
    is held, [Feature::draw] makes exactly one call, the one of the held
    figure's kind on the held parameters; the length guard of the figures
    never suppresses a held record. *)
Theorem held_record_draws_once ops self h log :
  run main_factory ops Feature.new [] = Some (self, h, log) ->
  match Feature.currentFigure self with
  | None => Feature.draw self h = Some ([], self)
  | Some p =>
      exists obj,
        h !! p = Some obj /\
        length (Feature.currentParams self) = countParams obj /\
        Feature.draw self h
        = Some ([builtin_call (Figure.type obj) (Feature.currentParams self)],
                self)
  end.
Proof.
  intros Hrun.
  pose proof (wf_new main_factory []) as Hwf0.
  destruct (run_inv _ _ _ _ _ _ _ Hwf0 Hrun) as ([_ Hcur] & _).
  destruct (run_invariant main_factory _ read_outcome_held
              ops Feature.new [] self h log Hwf0) as [Hh Hheld];
    [split; [constructor | intros p obj Hp; discriminate Hp] | exact Hrun |].
  unfold Feature.draw.
  destruct (Feature.currentFigure self) as [p|] eqn:Hp; [|reflexivity].
  destruct (lookup_lt_is_Some_2 _ _ (Hcur p eq_refl)) as [obj Hobj].
  exists obj. split; [exact Hobj|].
  pose proof (Hheld p obj eq_refl Hobj) as Hlen. split; [exact Hlen|].
  rewrite Forall_lookup in Hh.
  destruct (Hh _ _ Hobj) as (Impl & Hin & ->).
  rewrite Hobj. simpl.
  rewrite (builtin_draw_call Impl) by (exact Hin || lia). simpl.
  assert (Figure.type (construct Impl) = TYPE Impl) as ->; [|reflexivity].
  unfold builtin_classes in Hin.
  repeat (apply elem_of_cons in Hin as [->|Hin]);
    [| | | apply elem_of_nil in Hin; contradiction]; reflexivity.
Qed.

(** X14.  No use of a decoder faults: with a factory filled from classes
    whose [draw] does not fault, every sequence of decodes and renders on a
    newly constructed decoder runs to completion (no dangling pointer is
    followed). *)
Theorem run_never_faults (Args : list FigureImpl) ops :
  Forall (fun Impl => draw_safe (construct Impl)) Args ->
  is_Some (run (registerFigure Args ∅).1 ops Feature.new []).
Proof.
  intros Hsafe. apply run_total; [apply wf_new|].
  split; [constructor|].
  apply (registerFigure_Forall (fun Impl => draw_safe (construct Impl)));
    [exact Hsafe | apply map_Forall_empty].
Qed.

End FromConstruction.

Lemma builtin_classes_safe :
  Forall (fun Impl => draw_safe (construct Impl)) builtin_classes.
Proof.
  destruct builtin_draw_safe as (Hc & Ht & Hs).
  repeat constructor; assumption.
Qed.

Lemma cache_owns_heap_witness :
  owns [Circle.new] held_circle /\
  length [Circle.new] = size (Feature.figures held_circle) /\
  forall p, Feature.currentFigure held_circle = Some p ->
            exists type, Feature.figures held_circle !! type = Some p.
Proof.
  assert (run main_factory
            [Decode (mkFile (Some circle_record)); Render;
             Decode (mkFile (Some unknown_record))] Feature.new []
          = Some (held_circle, [Circle.new], [drawCircle d1 d2 d3])) as Hrun
    by reflexivity.
  exact (cache_owns_heap main_factory _ held_circle [Circle.new] _ Hrun).
Defined.

Lemma held_record_draws_once_witness :
  exists obj,
    [Circle.new] !! 0 = Some obj /\
    length [d1; d2; d3] = countParams obj /\
    Feature.draw held_circle [Circle.new]
    = Some ([builtin_call (Figure.type obj) [d1; d2; d3]], held_circle).
Proof.
  assert (run main_factory
            [Decode (mkFile (Some circle_record));
             Decode (mkFile (Some truncated_record))] Feature.new []
          = Some (held_circle, [Circle.new], [])) as Hrun
    by reflexivity.
  exact (held_record_draws_once _ held_circle [Circle.new] [] Hrun).
Defined.

Lemma run_never_faults_witness :
  is_Some (run main_factory
             [Render; Decode (mkFile (Some unknown_record));
              Decode (mkFile (Some circle_record)); Render]
             Feature.new []).
Proof.
  exact (run_never_faults builtin_classes _ builtin_classes_safe).
Defined.

(** ** The program on a file *)

Section Program.

Implicit Types (stream : list Byte.byte).




End Program.

(** ** The test doubles *)

Section TestDoubles.

Import Testing.

Implicit Types (cout : list Out) (count size : nat).

Lemma printed_doubles_app cout1 cout2 :
  printed_doubles (cout1 ++ cout2)
  = printed_doubles cout1 ++ printed_doubles cout2.
Proof. unfold printed_doubles. apply flat_map_app. Qed.

Lemma printed_lines_app cout1 cout2 :
  printed_lines (cout1 ++ cout2) = printed_lines cout1 + printed_lines cout2.
Proof. unfold printed_lines. rewrite flat_map_app, length_app. reflexivity. Qed.

Lemma doubles_of_bytes_cons count (chunk rest : list Byte.byte) :
  length chunk = sizeof_double ->
  doubles_of_bytes (S count) (chunk ++ rest)
  = le_decode chunk :: doubles_of_bytes count rest.
Proof.
  intros Hlen. unfold doubles_of_bytes. simpl seq. rewrite map_cons.
  f_equal.
  - rewrite Nat.mul_0_r, drop_0, take_app_le by lia.
    rewrite take_ge by lia. reflexivity.
  - rewrite <- fmap_S_seq.
    change (map ?f (S <$> ?l)) with (map f (map S l)).
    rewrite map_map. apply map_ext. intros i.
    replace (sizeof_double * S i) with (length chunk + sizeof_double * i)
      by lia.
    rewrite drop_app_add. reflexivity.
Qed.

Lemma params_loop_spec count :
  doubles_of_bytes count (params_loop count).1 = replicate count value_2_1 /\
  printed_doubles (params_loop count).2 = replicate count value_2_1 /\
  printed_lines (params_loop count).2 = 0.
Proof.
  induction count as [|count (IHs & IHd & IHl)]; [by repeat split|].
  cbn [params_loop].
  destruct (params_loop count) as [stored printed]. cbn [fst snd] in *.
  split; [|split].
  - rewrite (doubles_of_bytes_cons count _ stored) by reflexivity.
    rewrite IHs. reflexivity.
  - rewrite printed_doubles_app, IHd. reflexivity.
  - rewrite printed_lines_app, IHl. reflexivity.
Qed.

Lemma ReaderMock_read_type cout size :
  read (Running cout) true size 1
  = (Some (le_encode sizeof_Type eCircle),
     Running (cout ++ [out_text "ReaderMock::read(): type: eCircle";
                       out_endl])).
Proof. reflexivity. Qed.

Lemma ReaderMock_read_params cout count :
  exists stored cout',
    read (Running cout) (Feature.vector_data count) sizeof_double count
    = (Some stored, Running cout') /\
    doubles_of_bytes count stored
    = (if count =? 1 then [0%Z] else replicate count value_2_1) /\
    printed_lines cout' = printed_lines cout + 1.
Proof.
  destruct (decide (count = 1)) as [->|Hne].
  { eexists _, _. split; [reflexivity|]. split; [reflexivity|].
    rewrite printed_lines_app. reflexivity. }
  cbn [read ReaderMock_IReader]. unfold ReaderMock_read.
  assert ((count =? 1) = false) as -> by (apply Nat.eqb_neq; exact Hne).
  destruct (params_loop_spec count) as (Hs & _ & Hl).
  destruct (params_loop count) as [stored printed]. cbn [fst snd] in *.
  assert (Feature.vector_data count || (count =? 0) = true) as ->.
  { unfold Feature.vector_data. destruct (count =? 0); reflexivity. }
  eexists _, _. split; [reflexivity|]. split; [exact Hs|].
  rewrite !printed_lines_app, Hl. reflexivity.
Qed.


(** X17.  Decoding from the mock reader never stores through a null pointer
    and always decodes the circle kind: the read fails only when that kind is
    neither cached nor registered, and otherwise succeeds, holding as many
    times 2.1 as the figure has parameters (a single 0.0 for a figure with
    one parameter); one line is printed per read made. *)
Theorem read_from_ReaderMock (figureFactory : Factory)
    (self : Feature.Feature) (h : heap) cout :
  wf figureFactory h self ->
  match count_for figureFactory self h eCircle with
  | None =>
      exists cout',
        Feature.read figureFactory (Running cout) self h
        = Some (false, self, h, Running cout') /\
        printed_lines cout' = printed_lines cout + 1
  | Some count =>
      exists self' h' cout',
        Feature.read figureFactory (Running cout) self h
        = Some (true, self', h', Running cout') /\
        Feature.currentParams self'
        = (if count =? 1 then [0%Z] else replicate count value_2_1) /\
        printed_lines cout' = printed_lines cout + 2
  end.
Proof.
  intros Hwf.
  pose proof (ReaderMock_read_type cout sizeof_Type) as Htag.
  set (cout1 := cout ++ [out_text "ReaderMock::read(): type: eCircle";
                         out_endl]) in Htag.
  assert (printed_lines cout1 = printed_lines cout + 1) as Hl1.
  { unfold cout1. rewrite printed_lines_app. reflexivity. }
  assert (forall p self1 h1 obj,
    resolved figureFactory self h eCircle p self1 h1 ->
    h1 !! p = Some obj ->
    exists self' h' cout',
      Feature.read figureFactory (Running cout) self h
      = Some (true, self', h', Running cout') /\
      Feature.currentParams self'
      = (if countParams obj =? 1 then [0%Z]
         else replicate (countParams obj) value_2_1) /\
      printed_lines cout' = printed_lines cout + 2) as Hres.
  { intros p self1 h1 obj Hr Hobj.
    destruct (ReaderMock_read_params cout1 (countParams obj))
      as (stored & cout2 & Hpar & Hvals & Hl2).
    eexists _, _, cout2. split; [|split].
    - apply read_outcome_sound.
      exact (decoded (R := Console) figureFactory (Running cout) self h _ _
               p self1 h1 obj stored (Running cout2) Htag Hr Hobj Hpar).
    - exact Hvals.
    - lia. }
  unfold count_for.
  destruct (Feature.figures self !! eCircle) as [p|] eqn:Hc.
  - destruct (wf_lookup _ _ _ _ _ Hwf Hc) as [Hlt _].
    destruct (lookup_lt_is_Some_2 _ _ Hlt) as [obj Hobj].
    rewrite Hobj. simpl.
    apply (Hres p self h obj); [by apply resolved_cached | exact Hobj].
  - destruct (figureFactory !! eCircle) as [Impl|] eqn:Hreg; simpl.
    + eapply (Hres (length h) _ (h ++ [construct Impl]) (construct Impl));
        [by apply resolved_created | apply lookup_fresh].
    + exists cout1. split; [|exact Hl1].
      apply read_outcome_sound.
      exact (unknown_kind (R := Console) figureFactory (Running cout) self h
               _ _ Htag Hc Hreg).
Qed.

End TestDoubles.

Section TestMode.

Import Testing.

Lemma read_from_ReaderMock_witness :
  exists self' h' cout',
    Feature.read main_factory (Testing.Running []) held_circle [Circle.new]
    = Some (true, self', h', Testing.Running cout') /\
    Feature.currentParams self'
    = replicate 3 Testing.value_2_1 /\
    printed_lines cout' = 2.
Proof.
  exact (read_from_ReaderMock main_factory held_circle [Circle.new] []
           held_circle_wf).
Defined.

(** The program in test mode, with the mock reader in place of the file. *)
Example main_test_mode :
  main (Testing.Running [])
  = Some (0%Z, [drawCircle Testing.value_2_1 Testing.value_2_1
                  Testing.value_2_1]).
Proof. reflexivity. Qed.

End TestMode.
